(** * Purchase fulfilment pipeline of the ImNotArt marketplace

    A shallow embedding of the Stripe webhook handler
    ([src/app/api/webhook/stripe/route.ts]), the download endpoint
    ([api/download/[token]/route.ts]), the checkout route
    ([src/app/api/checkout/route.ts]), the e-mail sender ([src/lib/email.ts]),
    the mint path of the contract service with its transaction monitor, the
    upload with retries of [src/lib/storage.ts], the token contract
    ([contracts/ImNotArtNFT.sol]) and the SQL function
    [increment_artwork_editions] of [supabase-schema.sql].

    Tables are finite maps from the SERIAL PRIMARY KEY to the row; the
    in-memory [processedEvents] cache is a finite map keyed by strings.
    Every handler is a function from the world before the call to the
    response and the world after it; calls run one after the other.  What
    the outside decides during a call (clock, random bytes, mail transport,
    chain) is passed in as a record.  So are the errors of the store, for
    the statements whose error the source tests or expects (the inserts into
    purchases, download_tokens and webhook_events, the RPC, the update of a
    failed payment); every other statement takes effect, and a read returns
    what the tables hold.  The inserts into purchases and download_tokens
    enforce the constraints of [supabase-schema.sql] that relate rows
    (primary key, UNIQUE and NOT NULL on the payment intent, UNIQUE on the
    token, REFERENCES), and deleting a purchase cascades; the columns and tables
    the source uses and the schema file does not declare (idempotency_key,
    nft_tx_hash, webhook_events, nft_minting_errors) are taken to exist.
    The chain library is ethers v6, as the source uses it
    ([ethers.JsonRpcProvider], [ethers.parseUnits], the [2n] literals and the
    [bigint] fields of [MintResult]): amounts and receipt fields are
    bigints. *)

From Stdlib Require Import ZArith Lia Bool Ascii String List.
From stdpp Require Import base option list strings pretty gmap fin_maps.
Import ListNotations.

Open Scope string_scope.
Open Scope Z_scope.

(** ** JavaScript values *)

(** [x || d] on strings that may be null or undefined: the empty string is
    falsy. *)
Definition truthy_str (o : option string) : bool :=
  match o with
  | Some s => negb (String.eqb s "")
  | None => false
  end.

Definition or_str (a b : option string) : option string :=
  if truthy_str a then a else b.

(** [x || d] on a number or bigint that may be null: zero is falsy. *)
Definition or_num (a : option Z) (d : Z) : Z :=
  match a with
  | Some v => if v =? 0 then d else v
  | None => d
  end.

(** [!n] for a number; [None] stands for NaN. *)
Definition falsy_num (n : option Z) : bool :=
  match n with
  | Some v => v =? 0
  | None => true
  end.

(** [parseInt(s)] without a radix: leading white space, an optional sign, an
    optional [0x] prefix, then the longest run of digits; NaN when there is
    none.  Strings are byte strings, so only the ASCII white space is
    skipped, and the value is kept exact where a double would round. *)
Definition is_white_space (c : ascii) : bool :=
  let n := Z.of_nat (nat_of_ascii c) in
  ((9 <=? n) && (n <=? 13)) || (n =? 32).

Fixpoint skip_white_space (s : string) : string :=
  match s with
  | String c s' => if is_white_space c then skip_white_space s' else s
  | EmptyString => s
  end.

Definition digit_value (radix : Z) (c : ascii) : option Z :=
  let n := Z.of_nat (nat_of_ascii c) in
  let v :=
    if (48 <=? n) && (n <=? 57) then n - 48
    else if (97 <=? n) && (n <=? 122) then n - 87
    else if (65 <=? n) && (n <=? 90) then n - 55
    else radix in
  if v <? radix then Some v else None.

Fixpoint parse_digits (radix : Z) (s : string) (acc : option Z) : option Z :=
  match s with
  | String c s' =>
      match digit_value radix c with
      | Some d => parse_digits radix s' (Some (radix * default 0 acc + d))
      | None => acc
      end
  | EmptyString => acc
  end.

Definition parseInt (s : string) : option Z :=
  let s1 := skip_white_space s in
  let '(neg, s2) :=
    match s1 with
    | String "-"%char r => (true, r)
    | String "+"%char r => (false, r)
    | _ => (false, s1)
    end in
  let '(radix, s3) :=
    match s2 with
    | String "0"%char (String "x"%char r) => (16, r)
    | String "0"%char (String "X"%char r) => (16, r)
    | _ => (10, s2)
    end in
  match parse_digits radix s3 None with
  | Some v => Some (if neg : bool then - v else v)
  | None => None
  end.

(** ** Rows of the store *)

Inductive PaymentStatus := pending | completed | failed | refunded.

Record Artist := {
  wallet_address : string;
  name : option string
}.

Record Artwork := {
  artist_id : option Z;
  token_id : option Z;
  title : string;
  max_editions : Z;
  current_editions : Z;
  image_url : string;
  metadata_url : option string
}.

(** [amount_paid_cents] is the numerator of [amount_paid_usd], which the
    source computes as [(session.amount_total || 0) / 100]. *)
Record Purchase := {
  artwork_id : Z;
  buyer_email : string;
  buyer_wallet_address : option string;
  stripe_payment_intent_id : string;
  stripe_session_id : option string;
  amount_paid_cents : Z;
  payment_status : PaymentStatus;
  nft_minted : bool;
  nft_token_id : option Z;
  nft_tx_hash : option string;
  download_sent : bool;
  purchase_idempotency_key : string
}.

(** Times are milliseconds since the epoch. *)
Record DownloadToken := {
  purchase_id : Z;
  token : string;
  expires_at : Z;
  used_at : option Z;
  download_count : Z;
  max_downloads : Z;
  token_idempotency_key : string
}.

(** The payload [{ received, error? }] of [processEventWithTransaction]. *)
Record ProcessResult := {
  received : bool;
  error : option string
}.

Record WebhookEventRow := {
  event_id : string;
  result : ProcessResult;
  processed_at : Z
}.

(** One call of [transporter.sendMail], with whether it resolved. *)
Record Mail := {
  mail_to : string;
  mail_artworkTitle : string;
  mail_artistName : string;
  mail_downloadToken : string;
  mail_purchaseAmount_cents : Z;
  mail_delivered : bool
}.

(** The argument of [queueNFTMinting]; [job_artwork] and [job_artist] are
    the joined row read by the webhook, a snapshot taken when the job was
    queued. *)
Record MintJob := {
  purchaseId : Z;
  artworkId : Z;
  job_artwork : Artwork;
  job_artist : Artist;
  buyerWalletAddress : string;
  sessionId : string
}.

(** What the job catches: the error of [getContractService], the "Gas price
    too high" error, an error thrown by a call to the chain library, the
    "Transaction failed" error after the monitor, or a TypeError of the
    service's own code. *)
Inductive MintError :=
| ServiceUnavailable (message : string)
| GasPriceTooHigh (gasPrice : Z)
| ChainError (message : string)
| TransactionFailed (error : option string)
| TypeError (message : string).

Record MintingErrorRow := {
  error_purchase_id : Z;
  error_details : MintError;
  error_session_id : string
}.

(** ** The world: the Supabase tables, the process memory and the effects on
    the outside *)
Record World := {
  artists : gmap Z Artist;
  artworks : gmap Z Artwork;
  purchases : gmap Z Purchase;
  download_tokens : gmap Z DownloadToken;
  webhook_events : list WebhookEventRow;
  nft_minting_errors : list MintingErrorRow;
  processedEvents : gmap string (Z * ProcessResult);
  sent_mail : list Mail;
  sleeps : list Z;
  timers : list MintJob
}.

Definition empty_world : World :=
  {| artists := ∅; artworks := ∅; purchases := ∅; download_tokens := ∅;
     webhook_events := []; nft_minting_errors := [];
     processedEvents := ∅; sent_mail := []; sleeps := []; timers := [] |}.

Definition set_artworks (f : gmap Z Artwork -> gmap Z Artwork) (w : World) : World :=
  {| artists := artists w; artworks := f (artworks w); purchases := purchases w;
     download_tokens := download_tokens w; webhook_events := webhook_events w;
     nft_minting_errors := nft_minting_errors w;
     processedEvents := processedEvents w; sent_mail := sent_mail w;
     sleeps := sleeps w; timers := timers w |}.

Definition set_purchases (f : gmap Z Purchase -> gmap Z Purchase) (w : World) : World :=
  {| artists := artists w; artworks := artworks w; purchases := f (purchases w);
     download_tokens := download_tokens w; webhook_events := webhook_events w;
     nft_minting_errors := nft_minting_errors w;
     processedEvents := processedEvents w; sent_mail := sent_mail w;
     sleeps := sleeps w; timers := timers w |}.

Definition set_download_tokens (f : gmap Z DownloadToken -> gmap Z DownloadToken)
    (w : World) : World :=
  {| artists := artists w; artworks := artworks w; purchases := purchases w;
     download_tokens := f (download_tokens w); webhook_events := webhook_events w;
     nft_minting_errors := nft_minting_errors w;
     processedEvents := processedEvents w; sent_mail := sent_mail w;
     sleeps := sleeps w; timers := timers w |}.

Definition set_webhook_events (f : list WebhookEventRow -> list WebhookEventRow)
    (w : World) : World :=
  {| artists := artists w; artworks := artworks w; purchases := purchases w;
     download_tokens := download_tokens w; webhook_events := f (webhook_events w);
     nft_minting_errors := nft_minting_errors w;
     processedEvents := processedEvents w; sent_mail := sent_mail w;
     sleeps := sleeps w; timers := timers w |}.

Definition set_nft_minting_errors (f : list MintingErrorRow -> list MintingErrorRow)
    (w : World) : World :=
  {| artists := artists w; artworks := artworks w; purchases := purchases w;
     download_tokens := download_tokens w; webhook_events := webhook_events w;
     nft_minting_errors := f (nft_minting_errors w);
     processedEvents := processedEvents w; sent_mail := sent_mail w;
     sleeps := sleeps w; timers := timers w |}.

Definition set_processedEvents
    (f : gmap string (Z * ProcessResult) -> gmap string (Z * ProcessResult))
    (w : World) : World :=
  {| artists := artists w; artworks := artworks w; purchases := purchases w;
     download_tokens := download_tokens w; webhook_events := webhook_events w;
     nft_minting_errors := nft_minting_errors w;
     processedEvents := f (processedEvents w); sent_mail := sent_mail w;
     sleeps := sleeps w; timers := timers w |}.

Definition set_sent_mail (f : list Mail -> list Mail) (w : World) : World :=
  {| artists := artists w; artworks := artworks w; purchases := purchases w;
     download_tokens := download_tokens w; webhook_events := webhook_events w;
     nft_minting_errors := nft_minting_errors w;
     processedEvents := processedEvents w; sent_mail := f (sent_mail w);
     sleeps := sleeps w; timers := timers w |}.

Definition set_sleeps (f : list Z -> list Z) (w : World) : World :=
  {| artists := artists w; artworks := artworks w; purchases := purchases w;
     download_tokens := download_tokens w; webhook_events := webhook_events w;
     nft_minting_errors := nft_minting_errors w;
     processedEvents := processedEvents w; sent_mail := sent_mail w;
     sleeps := f (sleeps w); timers := timers w |}.

Definition set_timers (f : list MintJob -> list MintJob) (w : World) : World :=
  {| artists := artists w; artworks := artworks w; purchases := purchases w;
     download_tokens := download_tokens w; webhook_events := webhook_events w;
     nft_minting_errors := nft_minting_errors w;
     processedEvents := processedEvents w; sent_mail := sent_mail w;
     sleeps := sleeps w; timers := f (timers w) |}.

(** ** Queries *)

(** [.select().eq(...)]: the rows of a table that satisfy a condition, with
    their keys. *)
Definition select {A} (cond : A -> bool) (table : gmap Z A) : list (Z * A) :=
  List.filter (fun kv => cond (snd kv)) (map_to_list table).

(** [.single()]: the row when there is exactly one, else no data. *)
Definition single {A} (rows : list A) : option A :=
  match rows with
  | [row] => Some row
  | _ => None
  end.

(** The key a SERIAL PRIMARY KEY column gives the next row: one that no row
    of the table has. *)
Definition next_id {A} (table : gmap Z A) : Z :=
  1 + map_fold (fun k _ acc => Z.max k acc) 0 table.

(** ** HTTP responses *)
Inductive NextResponse :=
| json_error (status : Z) (message : string)
| json_result (r : ProcessResult)
| redirect (url : string).

(** ** The download endpoint: [GET /api/download/[token]] *)

(** The inner joins of the query: the token's purchase and that purchase's
    artwork must both exist. *)
Definition joined_purchase (w : World) (t : DownloadToken) : option (Purchase * Artwork) :=
  match purchases w !! purchase_id t with
  | Some p =>
      match artworks w !! artwork_id p with
      | Some a => Some (p, a)
      | None => None
      end
  | None => None
  end.

Definition select_download_token (tok : string) (w : World)
    : option (Z * DownloadToken * Purchase * Artwork) :=
  match single (select (fun t => String.eqb (token t) tok && bool_decide (is_Some (joined_purchase w t)))
                       (download_tokens w)) with
  | Some (id, t) =>
      match joined_purchase w t with
      | Some (p, a) => Some (id, t, p, a)
      | None => None
      end
  | None => None
  end.

(** The Supabase client reports errors in its result and [image_url] is the
    absolute URL the upload stored, so no statement of the [try] block
    throws and the 500 answer of the [catch] does not arise. *)
Definition GET (now : Z) (tok : string) (w : World) : NextResponse * World :=
  match select_download_token tok w with
  | None => (json_error 404 "Invalid download token", w)
  | Some (id, downloadToken, purchase, artwork) =>
      if expires_at downloadToken <? now then
        (json_error 410 "Download token has expired", w)
      else if max_downloads downloadToken <=? download_count downloadToken then
        (json_error 429 "Maximum download limit reached", w)
      else
        let update (t : DownloadToken) :=
          {| purchase_id := purchase_id t; token := token t;
             expires_at := expires_at t;
             used_at := match used_at downloadToken with
                        | Some u => Some u
                        | None => Some now
                        end;
             download_count := download_count downloadToken + 1;
             max_downloads := max_downloads t;
             token_idempotency_key := token_idempotency_key t |} in
        (redirect (image_url artwork), set_download_tokens (alter update id) w)
  end.

(** ** The e-mail sender *)

Record EmailParams := {
  buyerEmail : string;
  artworkTitle : string;
  artistName : string;
  downloadToken : string;
  purchaseAmount_cents : Z
}.

(** What a call gives its caller: a boolean, or an exception. *)
Inductive SendOutcome :=
| Returned (ok : bool)
| Threw (message : string).

(** [sendDownloadEmail] of [src/lib/email.ts]: one [transporter.sendMail]
    call inside [try]/[catch]; [resolves] says whether the transport
    delivers it.  A rejected call is caught and turned into [false]. *)
Definition sendDownloadEmail (resolves : bool) (params : EmailParams) (w : World)
    : SendOutcome * World :=
  let mail :=
    {| mail_to := buyerEmail params;
       mail_artworkTitle := artworkTitle params;
       mail_artistName := artistName params;
       mail_downloadToken := downloadToken params;
       mail_purchaseAmount_cents := purchaseAmount_cents params;
       mail_delivered := resolves |} in
  (Returned resolves, set_sent_mail (fun log => (log ++ [mail])%list) w).

(** The loop [for (attempt = 1; attempt <= maxRetries; attempt++)] of
    [sendDownloadEmailWithRetry], entered at [attempt] with [remaining]
    iterations to go.  [send attempt] is the call made in that iteration.
    The [setTimeout] wait is in the [catch] branch only. *)
Fixpoint retry_loop (send : nat -> World -> SendOutcome * World)
    (maxRetries remaining attempt : nat) (w : World) : bool * World :=
  match remaining with
  | O => (false, w)
  | S remaining' =>
      match send attempt w with
      | (Returned true, w1) => (true, w1)
      | (Returned false, w1) =>
          retry_loop send maxRetries remaining' (S attempt) w1
      | (Threw _, w1) =>
          let w2 :=
            if (attempt <? maxRetries)%nat
            then set_sleeps (fun log => (log ++ [2 ^ Z.of_nat attempt * 1000])%list) w1
            else w1 in
          retry_loop send maxRetries remaining' (S attempt) w2
      end
  end.

Definition sendDownloadEmailWithRetry (send : nat -> World -> SendOutcome * World)
    (maxRetries : nat) (w : World) : bool * World :=
  retry_loop send maxRetries maxRetries 1%nat w.

(** The call the webhook makes: [sendDownloadEmail] as the sender, the
    default [maxRetries = 3]. *)
Definition send_download_email (transport : nat -> bool) (params : EmailParams)
    (w : World) : bool * World :=
  sendDownloadEmailWithRetry
    (fun attempt => sendDownloadEmail (transport attempt) params) 3%nat w.

(** ** Stripe events and requests *)

Record Metadata := {
  metadata_artworkId : option string;
  metadata_buyerEmail : option string;
  metadata_buyerWalletAddress : option string
}.

Record Session := {
  session_id : string;
  metadata : option Metadata;
  payment_intent : option string;
  amount_total : option Z
}.

Inductive EventObject :=
| checkout_session_completed (session : Session)
| payment_intent_payment_failed (paymentIntent_id : string)
| unhandled (type : string).

Record Event := {
  id : string;
  object : EventObject
}.

Record NextRequest := {
  body : string;
  stripe_signature : option string;
  stripe_idempotency_key : option string;
  x_stripe_idempotency_key : option string
}.

(** What the outside decides during one webhook call. *)
Record Env := {
  clock : Z;
  randomBytes_hex : string;
  purchases_insert_error : option string;
  increment_rpc_error : option string;
  download_tokens_insert_error : option string;
  webhook_events_insert_error : bool;
  purchases_update_error : bool;
  sendMail_resolves : nat -> bool
}.

Definition ok_result : ProcessResult := {| received := true; error := None |}.

(** The outer [catch]: [{ received: false, error: error.message || '...' }]. *)
Definition failure (message : string) : ProcessResult :=
  {| received := false;
     error := or_str (Some message) (Some "Webhook processing failed") |}.

(** ** Statements on the store *)

(** [increment_artwork_editions] of [supabase-schema.sql]: one UPDATE guarded
    by [current_editions < max_editions]; the function returns VOID. *)
Definition increment_artwork_editions (artworkId : Z) (table : gmap Z Artwork)
    : gmap Z Artwork :=
  match table !! artworkId with
  | Some a =>
      if current_editions a <? max_editions a then
        <[artworkId :=
            {| artist_id := artist_id a; token_id := token_id a; title := title a;
               max_editions := max_editions a;
               current_editions := current_editions a + 1;
               image_url := image_url a; metadata_url := metadata_url a |}]> table
      else table
  | None => table
  end.

Definition rpc_increment_artwork_editions (env : Env) (artworkId : Z) (w : World)
    : option string * World :=
  match increment_rpc_error env with
  | Some message => (Some message, w)
  | None => (None, set_artworks (increment_artwork_editions artworkId) w)
  end.

(** INSERT INTO purchases: refused on an injected error, on a null or
    duplicate [stripe_payment_intent_id] (UNIQUE NOT NULL) and on an
    [artwork_id] without artwork (REFERENCES artworks).  [row] is the row
    once the payment intent is known to be a string. *)
Definition purchases_insert (env : Env) (pi : option string) (row : string -> Purchase)
    (w : World) : string + Z * World :=
  match purchases_insert_error env with
  | Some message => inl message
  | None =>
      match pi with
      | None => inl "null value in column stripe_payment_intent_id"
      | Some intent =>
          if negb (bool_decide (select (fun q => String.eqb (stripe_payment_intent_id q) intent)
                                  (purchases w) = []))
          then inl "duplicate key value violates unique constraint"
          else if negb (bool_decide (is_Some (artworks w !! artwork_id (row intent))))
          then inl "insert violates foreign key constraint"
          else
            let new_id := next_id (purchases w) in
            inr (new_id, set_purchases (insert new_id (row intent)) w)
      end
  end.

(** INSERT INTO download_tokens, with the column defaults
    [download_count = 0] and [max_downloads = 3]: refused on an injected
    error, on a duplicate [token] (UNIQUE) and on a [purchase_id] without
    purchase. *)
Definition download_tokens_insert (env : Env) (purchaseId : Z) (tok : string)
    (expiresAt : Z) (key : string) (w : World) : option string * World :=
  match download_tokens_insert_error env with
  | Some message => (Some message, w)
  | None =>
      if negb (bool_decide (select (fun t => String.eqb (token t) tok)
                              (download_tokens w) = []))
      then (Some "duplicate key value violates unique constraint", w)
      else if negb (bool_decide (is_Some (purchases w !! purchaseId)))
      then (Some "insert violates foreign key constraint", w)
      else
        let row :=
          {| purchase_id := purchaseId; token := tok; expires_at := expiresAt;
             used_at := None; download_count := 0; max_downloads := 3;
             token_idempotency_key := key |} in
        (None, set_download_tokens (insert (next_id (download_tokens w)) row) w)
  end.

(** DELETE FROM purchases WHERE id = ..., with the ON DELETE CASCADE of
    [download_tokens.purchase_id]. *)
Definition purchases_delete (purchaseId : Z) (w : World) : World :=
  set_download_tokens
    (filter (fun kv : Z * DownloadToken => purchase_id (snd kv) <> purchaseId))
    (set_purchases (delete purchaseId) w).

(** The artwork with [artists!inner(name, wallet_address)]. *)
Definition select_artwork (artworkId : Z) (w : World) : option (Artwork * Artist) :=
  match artworks w !! artworkId with
  | Some a =>
      match artist_id a with
      | Some aid =>
          match artists w !! aid with
          | Some artist => Some (a, artist)
          | None => None
          end
      | None => None
      end
  | None => None
  end.

Definition set_download_sent (p : Purchase) : Purchase :=
  {| artwork_id := artwork_id p; buyer_email := buyer_email p;
     buyer_wallet_address := buyer_wallet_address p;
     stripe_payment_intent_id := stripe_payment_intent_id p;
     stripe_session_id := stripe_session_id p;
     amount_paid_cents := amount_paid_cents p;
     payment_status := payment_status p; nft_minted := nft_minted p;
     nft_token_id := nft_token_id p; nft_tx_hash := nft_tx_hash p;
     download_sent := true;
     purchase_idempotency_key := purchase_idempotency_key p |}.

Definition set_payment_status (s : PaymentStatus) (p : Purchase) : Purchase :=
  {| artwork_id := artwork_id p; buyer_email := buyer_email p;
     buyer_wallet_address := buyer_wallet_address p;
     stripe_payment_intent_id := stripe_payment_intent_id p;
     stripe_session_id := stripe_session_id p;
     amount_paid_cents := amount_paid_cents p;
     payment_status := s; nft_minted := nft_minted p;
     nft_token_id := nft_token_id p; nft_tx_hash := nft_tx_hash p;
     download_sent := download_sent p;
     purchase_idempotency_key := purchase_idempotency_key p |}.

Definition set_nft (tokenId : option Z) (txHash : string) (p : Purchase) : Purchase :=
  {| artwork_id := artwork_id p; buyer_email := buyer_email p;
     buyer_wallet_address := buyer_wallet_address p;
     stripe_payment_intent_id := stripe_payment_intent_id p;
     stripe_session_id := stripe_session_id p;
     amount_paid_cents := amount_paid_cents p;
     payment_status := payment_status p; nft_minted := true;
     nft_token_id := tokenId; nft_tx_hash := Some txHash;
     download_sent := download_sent p;
     purchase_idempotency_key := purchase_idempotency_key p |}.

(** [queueNFTMinting]: the job is handed to [setTimeout] and the promise
    resolves at once. *)
Definition queueNFTMinting (job : MintJob) (w : World) : World :=
  set_timers (fun queue => (queue ++ [job])%list) w.

(** ** The token contract: [contracts/ImNotArtNFT.sol]

    Addresses and uint256 values are integers; arithmetic is checked, as in
    Solidity 0.8: an overflow reverts.  A call returns the revert reason or
    its result with the state after it; a reverted call leaves the state as
    it was.  Of the inherited ERC1155 [_mint] the model keeps what it does
    to the balance of the receiver and its two ways to revert: the zero
    address, and a receiver that rejects the tokens ([accepts] is false).
    Of the inherited Ownable it keeps the owner, the modifier [onlyOwner]
    and the two functions that change the owner. *)
Module ImNotArtNFT.

Definition uint256_max : Z := 2 ^ 256 - 1.

Record TokenInfo := {
  artist : Z;
  maxSupply : Z;
  currentSupply : Z;
  royaltyPercentage : Z;
  metadataURI : string
}.

Record State := {
  owner : Z;
  _tokenIdCounter : Z;
  tokenInfo : gmap Z TokenInfo;
  balanceOf : gmap (Z * Z) Z
}.

Inductive Revert :=
| OwnableUnauthorizedAccount
| OwnableInvalidOwner
| Panic_overflow
| Token_does_not_exist
| Exceeds_max_supply
| ERC1155InvalidReceiver
| Receiver_rejected.

(** A mapping entry that was never written reads as the zero struct. *)
Definition zero_token : TokenInfo :=
  {| artist := 0; maxSupply := 0; currentSupply := 0; royaltyPercentage := 0;
     metadataURI := "" |}.

Definition token_at (st : State) (tokenId : Z) : TokenInfo :=
  default zero_token (tokenInfo st !! tokenId).

Definition constructor (initialOwner : Z) : Revert + State :=
  if initialOwner =? 0 then inl OwnableInvalidOwner
  else inr {| owner := initialOwner; _tokenIdCounter := 1; tokenInfo := ∅;
              balanceOf := ∅ |}.

Definition createToken (sender : Z) (artist_ : Z) (maxSupply_ : Z)
    (metadataURI_ : string) (st : State) : Revert + Z * State :=
  if negb (sender =? owner st) then inl OwnableUnauthorizedAccount
  else if uint256_max <=? _tokenIdCounter st then inl Panic_overflow
  else
    let tokenId := _tokenIdCounter st in
    inr (tokenId,
         {| owner := owner st;
            _tokenIdCounter := _tokenIdCounter st + 1;
            tokenInfo :=
              <[tokenId := {| artist := artist_; maxSupply := maxSupply_;
                              currentSupply := 0; royaltyPercentage := 1000;
                              metadataURI := metadataURI_ |}]> (tokenInfo st);
            balanceOf := balanceOf st |}).

Definition mintToken (accepts : bool) (sender : Z) (tokenId : Z) (buyer : Z)
    (amount : Z) (st : State) : Revert + State :=
  if negb (sender =? owner st) then inl OwnableUnauthorizedAccount
  else
    let token := token_at st tokenId in
    if artist token =? 0 then inl Token_does_not_exist
    else if uint256_max <? currentSupply token + amount then inl Panic_overflow
    else if maxSupply token <? currentSupply token + amount then inl Exceeds_max_supply
    else if buyer =? 0 then inl ERC1155InvalidReceiver
    else if uint256_max <? default 0 (balanceOf st !! (buyer, tokenId)) + amount
    then inl Panic_overflow
    else if negb accepts then inl Receiver_rejected
    else
      inr {| owner := owner st;
             _tokenIdCounter := _tokenIdCounter st;
             tokenInfo :=
               <[tokenId := {| artist := artist token; maxSupply := maxSupply token;
                               currentSupply := currentSupply token + amount;
                               royaltyPercentage := royaltyPercentage token;
                               metadataURI := metadataURI token |}]> (tokenInfo st);
             balanceOf :=
               <[(buyer, tokenId) :=
                   default 0 (balanceOf st !! (buyer, tokenId)) + amount]>
                 (balanceOf st) |}.

Definition uri (tokenId : Z) (st : State) : Revert + string :=
  let token := token_at st tokenId in
  if artist token =? 0 then inl Token_does_not_exist
  else inr (metadataURI token).

Definition getTokenInfo (tokenId : Z) (st : State) : TokenInfo := token_at st tokenId.

Definition getRoyaltyInfo (tokenId : Z) (salePrice : Z) (st : State)
    : Revert + Z * Z :=
  let token := token_at st tokenId in
  if artist token =? 0 then inl Token_does_not_exist
  else if uint256_max <? salePrice * royaltyPercentage token then inl Panic_overflow
  else inr (artist token, salePrice * royaltyPercentage token / 10000).

Definition transferOwnership (sender : Z) (newOwner : Z) (st : State) : Revert + State :=
  if negb (sender =? owner st) then inl OwnableUnauthorizedAccount
  else if newOwner =? 0 then inl OwnableInvalidOwner
  else inr {| owner := newOwner; _tokenIdCounter := _tokenIdCounter st;
              tokenInfo := tokenInfo st; balanceOf := balanceOf st |}.

Definition renounceOwnership (sender : Z) (st : State) : Revert + State :=
  if negb (sender =? owner st) then inl OwnableUnauthorizedAccount
  else inr {| owner := 0; _tokenIdCounter := _tokenIdCounter st;
              tokenInfo := tokenInfo st; balanceOf := balanceOf st |}.

(** The calls that write the counter, the token table or the owner, made by
    anyone with arguments of their types. *)
Inductive Call :=
| call_createToken (sender artist_ maxSupply_ : Z) (metadataURI_ : string)
| call_mintToken (accepts : bool) (sender tokenId buyer amount : Z)
| call_transferOwnership (sender newOwner : Z)
| call_renounceOwnership (sender : Z).

Definition well_typed (c : Call) : Prop :=
  match c with
  | call_createToken _ _ maxSupply_ _ => 0 <= maxSupply_ <= uint256_max
  | call_mintToken _ _ tokenId _ amount =>
      0 <= tokenId <= uint256_max /\ 0 <= amount <= uint256_max
  | call_transferOwnership _ _ | call_renounceOwnership _ => True
  end.

Definition exec (st : State) (c : Call) : State :=
  match c with
  | call_createToken sender artist_ maxSupply_ metadataURI_ =>
      match createToken sender artist_ maxSupply_ metadataURI_ st with
      | inr (_, st') => st'
      | inl _ => st
      end
  | call_mintToken accepts sender tokenId buyer amount =>
      match mintToken accepts sender tokenId buyer amount st with
      | inr st' => st'
      | inl _ => st
      end
  | call_transferOwnership sender newOwner =>
      match transferOwnership sender newOwner st with
      | inr st' => st'
      | inl _ => st
      end
  | call_renounceOwnership sender =>
      match renounceOwnership sender st with
      | inr st' => st'
      | inl _ => st
      end
  end.

Definition execs (calls : list Call) (st : State) : State := fold_left exec calls st.

(** What holds of the state after any calls from the constructor on: the
    token ids in use are those from 1 up to the counter, every supply is
    within its maximum, and every royalty is 10%. *)
Definition consistent (st : State) : Prop :=
  1 <= _tokenIdCounter st <= uint256_max /\
  (forall tokenId, is_Some (tokenInfo st !! tokenId) <->
                   1 <= tokenId < _tokenIdCounter st) /\
  forall tokenId token, tokenInfo st !! tokenId = Some token ->
    0 <= currentSupply token <= maxSupply token /\
    maxSupply token <= uint256_max /\
    royaltyPercentage token = 1000.

End ImNotArtNFT.


(** ** The webhook: [POST /api/webhook/stripe] *)

Definition CACHE_TTL : Z := 24 * 60 * 60 * 1000.

(** The hourly [setInterval] sweep of [processedEvents]. *)
Definition cleanup (now : Z) (w : World) : World :=
  set_processedEvents
    (filter (fun kv : string * (Z * ProcessResult) => ~ (now - fst (snd kv) > CACHE_TTL)))
    w.

Section Webhook.

Set Default Proof Using "Type".

(** [stripe.webhooks.constructEvent(body, signature, secret)]: the event, or
    [None] when it throws.  [sha256_hex] is
    [crypto.createHash('sha256').update(seed).digest('hex')]. *)
Variable constructEvent : string -> option string -> option Event.
Variable sha256_hex : string -> string.

Definition generateSecureToken (env : Env) : string :=
  String.append "dl_" (randomBytes_hex env).

Definition generateIdempotencyKey (seed : string) : string := sha256_hex seed.

Definition checkProcessedEvent (env : Env) (eventKey : string) (w : World)
    : option ProcessResult * World :=
  match processedEvents w !! eventKey with
  | Some cached => (Some (snd cached), w)
  | None =>
      match single (List.filter (fun row => String.eqb (event_id row) eventKey)
                      (webhook_events w)) with
      | Some data =>
          (Some (result data),
           set_processedEvents (insert eventKey (clock env, result data)) w)
      | None => (None, w)
      end
  end.

Definition markEventProcessed (env : Env) (eventKey : string) (r : ProcessResult)
    (w : World) : World :=
  let w1 := set_processedEvents (insert eventKey (clock env, r)) w in
  if webhook_events_insert_error env then w1
  else
    set_webhook_events
      (fun rows => (rows ++ [{| event_id := eventKey; result := r;
                               processed_at := clock env |}])%list) w1.

(** The row of the INSERT INTO purchases, once the payment intent is known
    to be a string. *)
Definition purchase_row (artworkId : Z) (buyerEmail : string)
    (buyerWalletAddress : option string) (session : Session) (intent : string)
    : Purchase :=
  {| artwork_id := artworkId; buyer_email := buyerEmail;
     buyer_wallet_address := or_str buyerWalletAddress None;
     stripe_payment_intent_id := intent;
     stripe_session_id := Some (session_id session);
     amount_paid_cents := or_num (amount_total session) 0;
     payment_status := completed; nft_minted := false;
     nft_token_id := None; nft_tx_hash := None; download_sent := false;
     purchase_idempotency_key := generateIdempotencyKey (session_id session) |}.

Definition processEventWithTransaction (env : Env) (event : Event) (w : World)
    : ProcessResult * World :=
  match object event with
  | checkout_session_completed session =>
      let artworkId :=
        parseInt (default "0" (or_str (metadata session ≫= metadata_artworkId)
                                      (Some "0"))) in
      let buyerEmail := metadata session ≫= metadata_buyerEmail in
      let buyerWalletAddress := metadata session ≫= metadata_buyerWalletAddress in
      if falsy_num artworkId || negb (truthy_str buyerEmail) then
        ({| received := false; error := Some "Missing required metadata" |}, w)
      else
        let artworkId := default 0 artworkId in
        let buyerEmail := default "" buyerEmail in
        match single (select (fun p => bool_decide (stripe_session_id p =
                                                      Some (session_id session)))
                        (purchases w)) with
        | Some existingPurchase => (ok_result, w)
        | None =>
            match purchases_insert env (payment_intent session)
                    (purchase_row artworkId buyerEmail buyerWalletAddress session) w with
            | inl message =>
                (failure (String.append "Error creating purchase: " message), w)
            | inr (pid, w1) =>
                match rpc_increment_artwork_editions env artworkId w1 with
                | (Some message, w2) =>
                    (failure (String.append "Error updating artwork editions: " message),
                     purchases_delete pid w2)
                | (None, w2) =>
                    let downloadToken := generateSecureToken env in
                    let expiresAt := clock env + 7 * 24 * 60 * 60 * 1000 in
                    match download_tokens_insert env pid downloadToken expiresAt
                            (generateIdempotencyKey
                               (String.append (session_id session) "_token")) w2 with
                    | (Some message, w3) =>
                        (failure (String.append "Error creating download token: " message),
                         purchases_delete pid w3)
                    | (None, w3) =>
                        match select_artwork artworkId w3 with
                        | None =>
                            (failure "Artwork not found", purchases_delete pid w3)
                        | Some (artwork, artist) =>
                            let '(emailSent, w4) :=
                              send_download_email (sendMail_resolves env)
                                {| buyerEmail := buyerEmail;
                                   artworkTitle := title artwork;
                                   artistName :=
                                     default "Unknown Artist"
                                       (or_str (name artist) (Some "Unknown Artist"));
                                   downloadToken := downloadToken;
                                   purchaseAmount_cents :=
                                     or_num (amount_total session) 0 |} w3 in
                            let w5 :=
                              if emailSent
                              then set_purchases (alter set_download_sent pid) w4
                              else w4 in
                            let w6 :=
                              if truthy_str buyerWalletAddress then
                                queueNFTMinting
                                  {| purchaseId := pid; artworkId := artworkId;
                                     job_artwork := artwork; job_artist := artist;
                                     buyerWalletAddress := default "" buyerWalletAddress;
                                     sessionId := session_id session |} w5
                              else w5 in
                            (ok_result, w6)
                        end
                    end
                end
            end
        end
  | payment_intent_payment_failed paymentIntent_id =>
      let w1 :=
        if purchases_update_error env then w
        else
          set_purchases
            (fmap (fun p => if String.eqb (stripe_payment_intent_id p) paymentIntent_id
                            then set_payment_status failed p else p)) w in
      (ok_result, w1)
  | unhandled _ => (ok_result, w)
  end.

Definition eventKey (request : NextRequest) (event : Event) : string :=
  default (id event)
    (or_str (or_str (stripe_idempotency_key request) (x_stripe_idempotency_key request))
            (Some (id event))).

Definition POST (env : Env) (request : NextRequest) (w : World) : NextResponse * World :=
  match constructEvent (body request) (stripe_signature request) with
  | None => (json_error 400 "Webhook signature verification failed", w)
  | Some event =>
      match checkProcessedEvent env (eventKey request event) w with
      | (Some existingResult, w1) => (json_result existingResult, w1)
      | (None, w1) =>
          let '(r, w2) := processEventWithTransaction env event w1 in
          (json_result r, markEventProcessed env (eventKey request event) r w2)
      end
  end.


(** ** The mint path of the contract service *)

(** [ethers.parseUnits(n, 'gwei')]. *)
Definition gwei (n : Z) : Z := n * 10 ^ 9.

Definition MAX_GAS_PRICE : Z := gwei 100.

Record FeeData := {
  fee_gasPrice : option Z;
  fee_maxFeePerGas : option Z;
  fee_maxPriorityFeePerGas : option Z
}.

Record GasEstimate := {
  estimatedGas : Z;
  gasPrice : Z;
  maxFeePerGas : Z;
  maxPriorityFeePerGas : Z;
  totalCostWei : Z
}.

(** The overrides of the submitted transaction. *)
Record Overrides := {
  gasLimit : Z;
  tx_maxFeePerGas : Z;
  tx_maxPriorityFeePerGas : Z
}.

(** A receipt as ethers v6 gives it: [status] is 1, 0 or null, the amounts
    are bigints. *)
Record TransactionReceipt := {
  receipt_hash : string;
  receipt_status : option Z;
  receipt_blockNumber : Z;
  receipt_gasUsed : Z;
  receipt_gasPrice : option Z
}.

Inductive TxState := tx_pending | tx_confirmed | tx_failed.

Record TxStatus := {
  tx_hash : string;
  tx_status : TxState;
  confirmations : Z;
  tx_blockNumber : option Z;
  tx_gasUsed : option Z;
  tx_error : option string
}.

Record MintResult := {
  txHash : string;
  gasUsed : Z;
  effectiveGasPrice : Z;
  totalCost : Z;
  blockNumber : Z
}.

(** What the chain decides during one mint job.  [estimateGas] and
    [getFeeData] are [None] when the call throws.  [send_mintToken] is
    [contract.mintToken] with the overrides: the hash of the transaction
    sent, or the message of what was thrown.  [waitForTransaction] is the
    provider's call of the monitor (one confirmation): the message thrown,
    else the receipt or null.  [tx_wait] is [tx.wait(CONFIRMATION_BLOCKS)]:
    the message thrown, else the receipt. *)
Record Chain := {
  getContractService_error : option string;
  createToken_result : MintError + Z;
  estimateGas : option Z;
  getFeeData : option FeeData;
  send_mintToken : Overrides -> string + string;
  waitForTransaction : string -> string + option TransactionReceipt;
  tx_wait : string -> string + TransactionReceipt
}.

(** [BigInt(Math.floor(Number(estimatedGas) * GAS_BUFFER))] is a computation
    on doubles: it is taken as a function of the estimate. *)
Variable gasWithBuffer : Z -> Z.

Definition estimateGasWithBuffer (chain : Chain) : GasEstimate :=
  match estimateGas chain, getFeeData chain with
  | Some gas, Some feeData =>
      let price := or_num (fee_gasPrice feeData) (gwei 10) in
      {| estimatedGas := gasWithBuffer gas;
         gasPrice := price;
         maxFeePerGas := or_num (fee_maxFeePerGas feeData) price;
         maxPriorityFeePerGas := or_num (fee_maxPriorityFeePerGas feeData) (gwei 1);
         totalCostWei := gasWithBuffer gas * price |}
  | _, _ =>
      {| estimatedGas := 500000;
         gasPrice := gwei 10;
         maxFeePerGas := gwei 10;
         maxPriorityFeePerGas := gwei 1;
         totalCostWei := 500000 * gwei 10 |}
  end.

(** The check on the gas price in [mintNFTWithGasEstimation]: the overrides
    to submit with, or the price of the "Gas price too high" error.  The
    division of bigints truncates. *)
Definition checkGasPrice (gasEstimate : GasEstimate) : Z + Overrides :=
  if gasPrice gasEstimate >? MAX_GAS_PRICE then
    let priority := maxPriorityFeePerGas gasEstimate ÷ 2 in
    let maxFee := gasPrice gasEstimate + priority in
    if maxFee >? MAX_GAS_PRICE then inl (gasPrice gasEstimate)
    else inr {| gasLimit := estimatedGas gasEstimate;
                tx_maxFeePerGas := maxFee;
                tx_maxPriorityFeePerGas := priority |}
  else inr {| gasLimit := estimatedGas gasEstimate;
              tx_maxFeePerGas := maxFeePerGas gasEstimate;
              tx_maxPriorityFeePerGas := maxPriorityFeePerGas gasEstimate |}.

(** [TransactionMonitor.monitorTransaction]: the status starts as pending;
    a receipt makes it confirmed or failed, a null receipt leaves it pending,
    and what [waitForTransaction] throws makes it failed.  The entry of the
    hash in [pendingTransactions] is set at the start and deleted at the
    end. *)
Definition monitorTransaction (chain : Chain) (hash : string) : TxStatus :=
  match waitForTransaction chain hash with
  | inr (Some receipt) =>
      {| tx_hash := hash;
         tx_status := if bool_decide (receipt_status receipt = Some 1)
                      then tx_confirmed else tx_failed;
         confirmations := 1;
         tx_blockNumber := Some (receipt_blockNumber receipt);
         tx_gasUsed := Some (receipt_gasUsed receipt);
         tx_error := if bool_decide (receipt_status receipt = Some 0)
                     then Some "Transaction reverted" else None |}
  | inr None =>
      {| tx_hash := hash; tx_status := tx_pending; confirmations := 0;
         tx_blockNumber := None; tx_gasUsed := None; tx_error := None |}
  | inl message =>
      {| tx_hash := hash; tx_status := tx_failed; confirmations := 0;
         tx_blockNumber := None; tx_gasUsed := None; tx_error := Some message |}
  end.

(** [a.mul(b)] on a bigint [a]: a bigint has no method [mul] (that was the
    BigNumber of ethers v5), so the call throws a TypeError. *)
Definition bigint_mul (a b : Z) : MintError + Z :=
  inl (TypeError "receipt.gasUsed.mul is not a function").

(** [mintNFTWithGasEstimation]: what the call returns or throws, and the
    overrides of the transactions it sent.  The properties of the result are
    evaluated in the order they are written. *)
Definition mintNFTWithGasEstimation (chain : Chain)
    : (MintError + MintResult) * list Overrides :=
  let gasEstimate := estimateGasWithBuffer chain in
  match checkGasPrice gasEstimate with
  | inl price => (inl (GasPriceTooHigh price), [])
  | inr overrides =>
      match send_mintToken chain overrides with
      | inl message => (inl (ChainError message), [])
      | inr hash =>
          let status := monitorTransaction chain hash in
          match tx_status status with
          | tx_failed => (inl (TransactionFailed (tx_error status)), [overrides])
          | _ =>
              match tx_wait chain hash with
              | inl message => (inl (ChainError message), [overrides])
              | inr receipt =>
                  let price := or_num (receipt_gasPrice receipt) (gasPrice gasEstimate) in
                  match bigint_mul (receipt_gasUsed receipt) price with
                  | inl e => (inl e, [overrides])
                  | inr cost =>
                      (inr {| txHash := receipt_hash receipt;
                              gasUsed := receipt_gasUsed receipt;
                              effectiveGasPrice := price;
                              totalCost := cost;
                              blockNumber := receipt_blockNumber receipt |},
                       [overrides])
                  end
              end
          end
      end
  end.

(** The legacy [mintToken] of the service, which the job calls. *)
Definition mintToken (chain : Chain) : MintError + string :=
  match fst (mintNFTWithGasEstimation chain) with
  | inl e => inl e
  | inr result => inr (txHash result)
  end.

Definition set_token_id (tokenId : Z) (a : Artwork) : Artwork :=
  {| artist_id := artist_id a; token_id := Some tokenId; title := title a;
     max_editions := max_editions a; current_editions := current_editions a;
     image_url := image_url a; metadata_url := metadata_url a |}.

(** The [catch] of the job: a row in [nft_minting_errors]. *)
Definition store_minting_error (params : MintJob) (e : MintError) (w : World) : World :=
  set_nft_minting_errors
    (fun rows => (rows ++ [{| error_purchase_id := purchaseId params;
                             error_details := e;
                             error_session_id := sessionId params |}])%list) w.

(** The callback [queueNFTMinting] hands to [setTimeout]. *)
Definition mint_job (chain : Chain) (params : MintJob) (w : World) : World :=
  match getContractService_error chain with
  | Some message => store_minting_error params (ServiceUnavailable message) w
  | None =>
      let created : MintError + option Z * World :=
        if falsy_num (token_id (job_artwork params)) then
          match createToken_result chain with
          | inl e => inl e
          | inr tokenId =>
              inr (Some tokenId,
                   set_artworks (alter (set_token_id tokenId) (artworkId params)) w)
          end
        else inr (token_id (job_artwork params), w) in
      match created with
      | inl e => store_minting_error params e w
      | inr (tokenId, w1) =>
          match mintToken chain with
          | inl e => store_minting_error params e w1
          | inr txHash =>
              set_purchases (alter (set_nft tokenId txHash) (purchaseId params)) w1
          end
      end
  end.

(** The timer of the oldest queued job fires. *)
Definition fire_timer (chain : Chain) (w : World) : World :=
  match timers w with
  | job :: rest => mint_job chain job (set_timers (fun _ => rest) w)
  | [] => w
  end.

(** ** Runs of the system *)

Inductive Action :=
| Webhook (env : Env) (request : NextRequest)
| Download (now : Z) (tok : string)
| Timer (chain : Chain)
| Sweep (now : Z).

Definition step (w : World) (a : Action) : World :=
  match a with
  | Webhook env request => snd (POST env request w)
  | Download now tok => snd (GET now tok w)
  | Timer chain => fire_timer chain w
  | Sweep now => cleanup now w
  end.

Definition run (actions : list Action) (w : World) : World :=
  fold_left step actions w.

(** ** What a redelivery must leave alone, and what the ledger holds *)

(** No purchase, no token, no edition count, no mail and no mint job differs
    between the two worlds. *)
Definition same_fulfilment (w w' : World) : Prop :=
  purchases w' = purchases w /\ download_tokens w' = download_tokens w /\
  artworks w' = artworks w /\ sent_mail w' = sent_mail w /\
  sleeps w' = sleeps w /\ timers w' = timers w /\
  nft_minting_errors w' = nft_minting_errors w.

(** The result the idempotency ledger holds for a key: the cache entry, else
    the row of [webhook_events]. *)
Definition ledger_lookup (key : string) (w : World) : option ProcessResult :=
  match processedEvents w !! key with
  | Some cached => Some (snd cached)
  | None =>
      result <$> single (List.filter (fun row => String.eqb (event_id row) key)
                           (webhook_events w))
  end.

(** A value that is null, undefined or the empty string. *)
Definition lacks (o : option string) : Prop := o = None \/ o = Some "".

(** Every token's download count is within its limit. *)
Definition within_limit (w : World) : Prop :=
  map_Forall (fun _ t => download_count t <= max_downloads t) (download_tokens w).

(** The token row after one more download at time [now]. *)
Definition redeemed (now : Z) (t : DownloadToken) : DownloadToken :=
  {| purchase_id := purchase_id t; token := token t; expires_at := expires_at t;
     used_at := Some (default now (used_at t));
     download_count := download_count t + 1;
     max_downloads := max_downloads t;
     token_idempotency_key := token_idempotency_key t |}.

(** The session lacks an artwork id or a buyer e-mail, as the webhook tests
    it: [!artworkId || !buyerEmail]. *)
Definition missing_metadata (session : Session) : bool :=
  falsy_num (parseInt (default "0" (or_str (metadata session ≫= metadata_artworkId)
                                           (Some "0"))))
  || negb (truthy_str (metadata session ≫= metadata_buyerEmail)).

(** The artwork id, the buyer e-mail and the wallet the webhook reads from
    the session's metadata. *)
Definition session_artworkId (session : Session) : Z :=
  default 0 (parseInt (default "0" (or_str (metadata session ≫= metadata_artworkId)
                                           (Some "0")))).

Definition session_buyerEmail (session : Session) : string :=
  default "" (metadata session ≫= metadata_buyerEmail).

Definition session_wallet (session : Session) : option string :=
  metadata session ≫= metadata_buyerWalletAddress.

(** The purchase the webhook finds for the session, if there is exactly
    one. *)
Definition existing_purchase (session : Session) (w : World) : option (Z * Purchase) :=
  single (select (fun p => bool_decide (stripe_session_id p = Some (session_id session)))
            (purchases w)).

(** Every row of [m'] is a row of [m] or a row as the webhook inserts it. *)
Definition tokens_extend (m m' : gmap Z DownloadToken) : Prop :=
  forall k t, m' !! k = Some t ->
    m !! k = Some t \/ (download_count t = 0 /\ max_downloads t = 3).


Definition minting_error_row (params : MintJob) (e : MintError) : MintingErrorRow :=
  {| error_purchase_id := purchaseId params; error_details := e;
     error_session_id := sessionId params |}.

(** ** The checkout: [POST /api/checkout] *)

(** The fields the route reads from the JSON body; [artworkId] is a
    number. *)
Record CheckoutBody := {
  checkout_artworkId : option Z;
  checkout_buyerEmail : option string;
  checkout_buyerWalletAddress : option string
}.

(** What the route passes to [stripe.checkout.sessions.create], but for the
    price, which is computed on doubles, and the constant fields. *)
Record SessionParams := {
  product_name : string;
  product_images : list string;
  customer_email : string;
  params_metadata : Metadata
}.

Inductive CheckoutResponse :=
| checkout_error (status : Z) (message : string)
| checkout_session (sessionId : string).

(** [n.toString()] for an integer [n]. *)
Definition Number_toString (n : Z) : string := pretty n.

(** The route: the response and the sessions it asked Stripe to create.
    [body] is [None] when [request.json()] throws, and [create] gives [None]
    when Stripe throws. *)
Definition checkout_POST (create : SessionParams -> option string)
    (body : option CheckoutBody) (w : World) : CheckoutResponse * list SessionParams :=
  match body with
  | None => (checkout_error 500 "Internal server error", [])
  | Some fields =>
      if falsy_num (checkout_artworkId fields)
         || negb (truthy_str (checkout_buyerEmail fields))
      then (checkout_error 400 "Missing required fields", [])
      else
        let artworkId := default 0 (checkout_artworkId fields) in
        match artworks w !! artworkId with
        | None => (checkout_error 404 "Artwork not found", [])
        | Some artwork =>
            if max_editions artwork <=? current_editions artwork
            then (checkout_error 400 "Artwork sold out", [])
            else
              let params :=
                {| product_name := title artwork;
                   product_images := [image_url artwork];
                   customer_email := default "" (checkout_buyerEmail fields);
                   params_metadata :=
                     {| metadata_artworkId := Some (Number_toString artworkId);
                        metadata_buyerEmail := checkout_buyerEmail fields;
                        metadata_buyerWalletAddress :=
                          or_str (checkout_buyerWalletAddress fields) (Some "") |} |} in
              match create params with
              | Some sessionId => (checkout_session sessionId, [params])
              | None => (checkout_error 500 "Internal server error", [params])
              end
        end
  end.

(** ** The upload to IPFS: [src/lib/storage.ts] *)

Record RetryConfig := {
  config_maxRetries : nat;
  initialDelay : Z;
  maxDelay : Z;
  backoffFactor : Z
}.

Definition retryConfig : RetryConfig :=
  {| config_maxRetries := 3; initialDelay := 1000; maxDelay := 10000;
     backoffFactor := 2 |}.

Definition IPFS_GATEWAYS : list string :=
  ["https://ipfs.io/ipfs/"; "https://gateway.pinata.cloud/ipfs/";
   "https://cloudflare-ipfs.com/ipfs/"; "https://gateway.ipfs.io/ipfs/"].

Record UploadResult := {
  upload_cid : string;
  upload_url : string;
  upload_size : Z;
  upload_validated : bool
}.

(** What the outside decides during one upload: whether the token of
    Web3.Storage is configured, what [performUpload] gives at each attempt
    (the message thrown or the cid), whether the HEAD request to a gateway
    for a cid is answered with success, and the random name the mock service
    makes up. *)
Record Storage := {
  WEB3_STORAGE_TOKEN : bool;
  performUpload : nat -> string + string;
  head_ok : string -> string -> bool;
  mockHash : string
}.

(** [validateUpload]: at least one gateway confirms. *)
Definition validateUpload (storage : Storage) (cid : string) : bool :=
  let results := List.map (fun gateway => head_ok storage gateway cid) IPFS_GATEWAYS in
  (0 <? length (List.filter (fun ok => ok) results))%nat.

(** The result of the mock service, which uploads nothing. *)
Definition mock_result (storage : Storage) (size : Z) (validated : bool) : UploadResult :=
  {| upload_cid := mockHash storage;
     upload_url := String.append "ipfs://" (mockHash storage);
     upload_size := size; upload_validated := validated |}.

(** The [while] loop of [uploadWithRetry], [remaining] being
    [maxAttempts - attempts]: the result returned from inside the loop, if
    any, with the attempts made and the delays waited. *)
Fixpoint upload_loop (storage : Storage) (config : RetryConfig) (size : Z)
    (remaining attempts : nat) (delay : Z) (waited : list Z)
    : option UploadResult * nat * list Z :=
  match remaining with
  | O => (None, attempts, waited)
  | S remaining' =>
      let attempt := S attempts in
      let retry :=
        if (attempt <? config_maxRetries config)%nat
        then upload_loop storage config size remaining' attempt
               (Z.min (delay * backoffFactor config) (maxDelay config))
               (waited ++ [delay])%list
        else upload_loop storage config size remaining' attempt delay waited in
      if negb (WEB3_STORAGE_TOKEN storage)
      then (Some (mock_result storage size true), attempt, waited)
      else
        match performUpload storage attempt with
        | inl _ => retry
        | inr cid =>
            if validateUpload storage cid
            then (Some {| upload_cid := cid; upload_url := String.append "ipfs://" cid;
                          upload_size := size; upload_validated := true |},
                  attempt, waited)
            else retry
        end
  end.

(** [uploadWithRetry] for a task that starts with no attempt made; after
    the loop comes [fallbackUpload]. *)
Definition uploadWithRetry (storage : Storage) (config : RetryConfig) (size : Z)
    : UploadResult * nat * list Z :=
  match upload_loop storage config size (config_maxRetries config) 0
          (initialDelay config) [] with
  | (Some result, attempts, waited) => (result, attempts, waited)
  | (None, attempts, waited) => (mock_result storage size false, attempts, waited)
  end.

(** Whether attempt [n] uploads a file that a gateway confirms. *)
Definition attempt_succeeds (storage : Storage) (n : nat) : bool :=
  match performUpload storage n with
  | inl _ => false
  | inr cid => validateUpload storage cid
  end.

(** The rest of [s] after [prefix], if [s] starts with it. *)
Fixpoint strip_prefix (prefix s : string) : option string :=
  match prefix, s with
  | EmptyString, _ => Some s
  | String a prefix', String b s' =>
      if Ascii.eqb a b then strip_prefix prefix' s' else None
  | String _ _, EmptyString => None
  end.

(** [ipfsToHttpUrl]: the first occurrence of the scheme, which [replace]
    takes out, is the prefix that [startsWith] found. *)
Definition ipfsToHttpUrl (ipfsUrl : string) : string :=
  match strip_prefix "ipfs://" ipfsUrl with
  | Some hash => String.append "https://ipfs.io/ipfs/" hash
  | None => ipfsUrl
  end.

(** ** Concrete inputs *)

Definition demo_artist : Artist :=
  {| wallet_address := "0xA11CE"; name := Some "Alice" |}.

Definition demo_artwork (artist : option Z) (current max : Z) : Artwork :=
  {| artist_id := artist; token_id := None; title := "Dunes";
     max_editions := max; current_editions := current;
     image_url := "https://ipfs.io/ipfs/dunes.png"; metadata_url := None |}.

(** Artwork 1 has editions left, artwork 2 has no artist, artwork 3 is sold
    out. *)
Definition demo_world : World :=
  {| artists := {[ 1 := demo_artist ]};
     artworks := {[ 1 := demo_artwork (Some 1) 3 5;
                    2 := demo_artwork None 0 5;
                    3 := demo_artwork (Some 1) 1 1 ]};
     purchases := ∅; download_tokens := ∅; webhook_events := [];
     nft_minting_errors := []; processedEvents := ∅; sent_mail := [];
     sleeps := []; timers := [] |}.

Definition demo_session (artwork : option string) (email : option string) : Session :=
  {| session_id := "cs_1";
     metadata := Some {| metadata_artworkId := artwork;
                         metadata_buyerEmail := email;
                         metadata_buyerWalletAddress := Some "0xB0B" |};
     payment_intent := Some "pay_1";
     amount_total := Some 1500 |}.

Definition demo_event (artwork : option string) (email : option string) : Event :=
  {| id := "evt_1";
     object := checkout_session_completed (demo_session artwork email) |}.

(** The request whose body names the artwork; only the signature ["good"]
    verifies. *)
Definition demo_request (artwork : string) (signature : string) : NextRequest :=
  {| body := artwork; stripe_signature := Some signature;
     stripe_idempotency_key := None; x_stripe_idempotency_key := None |}.

Definition demo_constructEvent (body : string) (signature : option string) : option Event :=
  if bool_decide (signature = Some "good") then
    Some (demo_event (if String.eqb body "" then None else Some body)
                     (Some "bob@example.com"))
  else None.

Definition demo_sha256_hex (seed : string) : string := String.append "sha256:" seed.

Definition demo_env (mail : bool) : Env :=
  {| clock := 1000; randomBytes_hex := "00ff";
     purchases_insert_error := None; increment_rpc_error := None;
     download_tokens_insert_error := None; webhook_events_insert_error := false;
     purchases_update_error := false; sendMail_resolves := fun _ => mail |}.

Definition demo_params : EmailParams :=
  {| buyerEmail := "bob@example.com"; artworkTitle := "Dunes"; artistName := "Alice";
     downloadToken := "dl_00ff"; purchaseAmount_cents := 1500 |}.

Definition demo_token : DownloadToken :=
  {| purchase_id := 1; token := "dl_00ff"; expires_at := 5000; used_at := None;
     download_count := 2; max_downloads := 3; token_idempotency_key := "k" |}.

Definition demo_purchase : Purchase :=
  {| artwork_id := 1; buyer_email := "bob@example.com";
     buyer_wallet_address := Some "0xB0B"; stripe_payment_intent_id := "pay_1";
     stripe_session_id := Some "cs_1"; amount_paid_cents := 1500;
     payment_status := completed; nft_minted := false; nft_token_id := None;
     nft_tx_hash := None; download_sent := true;
     purchase_idempotency_key := "sha256:cs_1" |}.

(** [demo_world] after one fulfilled purchase of artwork 1. *)
Definition demo_world_sold : World :=
  set_download_tokens (insert 1 demo_token)
    (set_purchases (insert 1 demo_purchase) demo_world).

(** The receipt of a transaction that was mined and did not revert. *)
Definition demo_receipt (hash : string) : TransactionReceipt :=
  {| receipt_hash := hash; receipt_status := Some 1; receipt_blockNumber := 42;
     receipt_gasUsed := 90000; receipt_gasPrice := Some (gwei 5) |}.

Definition demo_chain (price : option Z) : Chain :=
  {| getContractService_error := None;
     createToken_result := inr 7;
     estimateGas := Some 100000;
     getFeeData := Some {| fee_gasPrice := price; fee_maxFeePerGas := None;
                           fee_maxPriorityFeePerGas := None |};
     send_mintToken := fun _ => inr "0xhash";
     waitForTransaction := fun hash => inr (Some (demo_receipt hash));
     tx_wait := fun hash => inr (demo_receipt hash) |}.


(** A chain whose gas price of 101 gwei is above the ceiling, with a fee of
    102 gwei of which 4 gwei are the priority fee. *)
Definition demo_chain_congested : Chain :=
  {| getContractService_error := None;
     createToken_result := inr 7;
     estimateGas := Some 100000;
     getFeeData := Some {| fee_gasPrice := Some (gwei 101);
                           fee_maxFeePerGas := Some (gwei 102);
                           fee_maxPriorityFeePerGas := Some (gwei 4) |};
     send_mintToken := fun _ => inr "0xhash";
     waitForTransaction := fun hash => inr (Some (demo_receipt hash));
     tx_wait := fun hash => inr (demo_receipt hash) |}.


(** ** Further notions for the properties of the code *)

(** Every artwork's edition count is within its maximum. *)
Definition editions_within (w : World) : Prop :=
  map_Forall (fun _ a => current_editions a <= max_editions a) (artworks w).

(** The artwork row after one edition is taken. *)
Definition edition_taken (a : Artwork) : Artwork :=
  {| artist_id := artist_id a; token_id := token_id a; title := title a;
     max_editions := max_editions a;
     current_editions := current_editions a + 1;
     image_url := image_url a; metadata_url := metadata_url a |}.

(** The token row the webhook inserts for a purchase. *)
Definition issued_token (env : Env) (session : Session) (purchaseId : Z) : DownloadToken :=
  {| purchase_id := purchaseId; token := generateSecureToken env;
     expires_at := clock env + 7 * 24 * 60 * 60 * 1000;
     used_at := None; download_count := 0; max_downloads := 3;
     token_idempotency_key :=
       generateIdempotencyKey (String.append (session_id session) "_token") |}.

(** Downloads with one token at the given times, one after the other: how
    many were answered with the redirect, and the world afterwards. *)
Fixpoint downloads (times : list Z) (tok : string) (w : World) : nat * World :=
  match times with
  | [] => (0%nat, w)
  | now :: rest =>
      let '(response, w1) := GET now tok w in
      let '(n, w2) := downloads rest tok w1 in
      (match response with
       | redirect _ => S n
       | _ => n
       end, w2)
  end.


(** The number of webhook deliveries in a run. *)
Definition deliveries (actions : list Action) : Z :=
  Z.of_nat (length (List.filter (fun a => match a with
                                          | Webhook _ _ => true
                                          | _ => false
                                          end) actions)).

(** From [m] to [m'] the artworks are the same ones, with the same maximum,
    and every edition count went up by at most [n], never down and never
    from within the maximum to beyond it. *)
Definition editions_advance (n : Z) (m m' : gmap Z Artwork) : Prop :=
  forall k,
    match m !! k, m' !! k with
    | Some a, Some a' =>
        max_editions a' = max_editions a /\
        current_editions a <= current_editions a' <= current_editions a + n /\
        (current_editions a <= max_editions a ->
         current_editions a' <= max_editions a')
    | None, None => True
    | _, _ => False
    end.


(** What the update of a failed payment does to a purchase row. *)
Definition mark_failed (env : Env) (intent : string) (p : Purchase) : Purchase :=
  if purchases_update_error env then p
  else if String.eqb (stripe_payment_intent_id p) intent
       then set_payment_status failed p else p.


(** ** Properties of the queries *)

Lemma next_id_above {A} (table : gmap Z A) k v :
  table !! k = Some v -> k < next_id table.
Proof.
  unfold next_id. revert k v.
  apply (map_fold_weak_ind
           (fun r (m : gmap Z A) => forall k v, m !! k = Some v -> k < 1 + r)).
  - intros k v H. by rewrite lookup_empty in H.
  - intros i x m r Hi IH k v H.
    destruct (decide (i = k)) as [->|Hne]; [lia|].
    rewrite lookup_insert_ne in H by done.
    specialize (IH _ _ H). lia.
Qed.

Lemma next_id_fresh {A} (table : gmap Z A) : table !! next_id table = None.
Proof.
  destruct (table !! next_id table) as [v|] eqn:E; [|done].
  apply next_id_above in E. lia.
Qed.

Lemma select_elem {A} (cond : A -> bool) (table : gmap Z A) k v :
  (k, v) ∈ select cond table <-> table !! k = Some v /\ cond v = true.
Proof.
  unfold select. rewrite list_elem_of_In, filter_In, <- list_elem_of_In.
  by rewrite elem_of_map_to_list.
Qed.

Lemma select_single_Some {A} (cond : A -> bool) (table : gmap Z A) k v :
  single (select cond table) = Some (k, v) ->
  table !! k = Some v /\ cond v = true.
Proof.
  intros H. apply select_elem.
  destruct (select cond table) as [|x [|y l]]; simplify_eq/=. by left.
Qed.

Lemma select_nil {A} (cond : A -> bool) (table : gmap Z A) :
  (forall k v, table !! k = Some v -> cond v = false) ->
  select cond table = [].
Proof.
  intros H. destruct (select cond table) as [|[k v] l] eqn:E; [done|].
  assert (Hin : (k, v) ∈ select cond table) by (rewrite E; by left).
  apply select_elem in Hin as [Hk Hc]. rewrite (H _ _ Hk) in Hc. done.
Qed.

Lemma filter_unique {A} (P : A -> bool) (l : list A) x :
  NoDup l -> x ∈ l -> P x = true ->
  (forall y, y ∈ l -> P y = true -> y = x) ->
  List.filter P l = [x].
Proof.
  induction l as [|a l IH]; intros Hnd Hin Hx Huniq; [by inversion Hin|].
  apply NoDup_cons in Hnd as [Ha Hnd]. simpl.
  destruct (P a) eqn:Pa.
  - assert (a = x) as -> by (apply Huniq; [by left|done]).
    f_equal. destruct (List.filter P l) as [|y l'] eqn:E; [done|].
    assert (Hy : y ∈ List.filter P l) by (rewrite E; by left).
    rewrite list_elem_of_In, filter_In, <- list_elem_of_In in Hy.
    destruct Hy as [Hy Py].
    assert (y = x) as -> by (apply Huniq; [by right|done]). done.
  - apply IH; [done| |done|].
    + apply elem_of_cons in Hin as [->|Hin]; [congruence|done].
    + intros y Hy. apply Huniq. by right.
Qed.

Lemma select_unique {A} (cond : A -> bool) (table : gmap Z A) k v :
  table !! k = Some v -> cond v = true ->
  (forall k' v', table !! k' = Some v' -> cond v' = true -> k' = k) ->
  single (select cond table) = Some (k, v).
Proof.
  intros Hk Hc Huniq. unfold select.
  rewrite (filter_unique _ _ (k, v)); [done| | | |].
  - apply NoDup_map_to_list.
  - by apply elem_of_map_to_list.
  - done.
  - intros [k' v'] Hin Hc'. apply elem_of_map_to_list in Hin.
    assert (k' = k) as -> by eauto. simpl in *. congruence.
Qed.

(** ** The download endpoint *)

Lemma select_download_token_Some tok w id t p a :
  select_download_token tok w = Some (id, t, p, a) ->
  download_tokens w !! id = Some t /\ token t = tok /\
  joined_purchase w t = Some (p, a).
Proof.
  unfold select_download_token. intros H.
  destruct (single _) as [[id' t']|] eqn:E; [|done].
  apply select_single_Some in E as [Hk Hc].
  destruct (joined_purchase w t') as [[p' a']|] eqn:J; [|done].
  simplify_eq. apply andb_prop in Hc as [Htok _].
  apply String.eqb_eq in Htok. done.
Qed.

Lemma select_download_token_known tok w id t p a :
  download_tokens w !! id = Some t -> token t = tok ->
  (forall id' t', download_tokens w !! id' = Some t' -> token t' = tok -> id' = id) ->
  purchases w !! purchase_id t = Some p -> artworks w !! artwork_id p = Some a ->
  select_download_token tok w = Some (id, t, p, a).
Proof.
  intros Hk Htok Huniq Hp Ha. unfold select_download_token.
  assert (J : joined_purchase w t = Some (p, a)).
  { unfold joined_purchase. by rewrite Hp, Ha. }
  rewrite (select_unique _ _ id t); [by rewrite J|done| |].
  - apply andb_true_intro. split; [by apply String.eqb_eq|].
    apply bool_decide_eq_true. by rewrite J.
  - intros id' t' Hk' Hc. apply andb_prop in Hc as [Hc _].
    apply String.eqb_eq in Hc. eauto.
Qed.

Lemma select_download_token_unknown tok w :
  (forall id t, download_tokens w !! id = Some t -> token t <> tok) ->
  select_download_token tok w = None.
Proof.
  intros H. unfold select_download_token. rewrite select_nil; [done|].
  intros k v Hk. apply andb_false_intro1.
  apply String.eqb_neq. eauto.
Qed.

Lemma alter_redeemed now id t (m : gmap Z DownloadToken) (f : DownloadToken -> DownloadToken) :
  m !! id = Some t -> f t = redeemed now t -> alter f id m = <[id := redeemed now t]> m.
Proof.
  intros Hk Hf. apply map_eq. intros k.
  destruct (decide (k = id)) as [->|Hne].
  - by rewrite lookup_alter_eq, lookup_insert_eq, Hk; simpl; rewrite Hf.
  - by rewrite lookup_alter_ne, lookup_insert_ne.
Qed.

Lemma GET_resolved now tok w id t p a :
  select_download_token tok w = Some (id, t, p, a) ->
  GET now tok w =
    if expires_at t <? now then (json_error 410 "Download token has expired", w)
    else if max_downloads t <=? download_count t
    then (json_error 429 "Maximum download limit reached", w)
    else (redirect (image_url a), set_download_tokens (insert id (redeemed now t)) w).
Proof.
  intros H. unfold GET. rewrite H.
  destruct (expires_at t <? now); [done|].
  destruct (max_downloads t <=? download_count t); [done|].
  apply select_download_token_Some in H as (Hk & _ & _).
  f_equal. unfold set_download_tokens. f_equal.
  apply alter_redeemed; [done|]. unfold redeemed. by destruct (used_at t).
Qed.

(** C6: the download endpoint answers 404 for a token no row bears; for the
    row that bears the token (with its purchase and artwork) it answers 410
    when the row is expired, whatever its count, else 429 when the count has
    reached the limit, else it redirects to the artwork's image and stores
    the count plus one. *)
Theorem C6_download_precedence (now : Z) (tok : string) (w : World) :
  ((forall id t, download_tokens w !! id = Some t -> token t <> tok) ->
   GET now tok w = (json_error 404 "Invalid download token", w)) /\
  (forall id t p a,
     download_tokens w !! id = Some t -> token t = tok ->
     (forall id' t', download_tokens w !! id' = Some t' -> token t' = tok -> id' = id) ->
     purchases w !! purchase_id t = Some p -> artworks w !! artwork_id p = Some a ->
     (expires_at t < now ->
      GET now tok w = (json_error 410 "Download token has expired", w)) /\
     (now <= expires_at t -> max_downloads t <= download_count t ->
      GET now tok w = (json_error 429 "Maximum download limit reached", w)) /\
     (now <= expires_at t -> download_count t < max_downloads t ->
      GET now tok w =
        (redirect (image_url a),
         set_download_tokens (insert id (redeemed now t)) w))).
Proof.
  split.
  - intros H. unfold GET. by rewrite select_download_token_unknown.
  - intros id t p a Hk Htok Huniq Hp Ha.
    pose proof (select_download_token_known _ _ _ _ _ _ Hk Htok Huniq Hp Ha) as Hs.
    rewrite (GET_resolved _ _ _ _ _ _ _ Hs).
    repeat split; intros.
    + by rewrite (proj2 (Z.ltb_lt _ _)).
    + rewrite (proj2 (Z.ltb_ge _ _)), (proj2 (Z.leb_le _ _)); done.
    + rewrite (proj2 (Z.ltb_ge _ _)), (proj2 (Z.leb_gt _ _)); done.
Qed.


(** ** The e-mail sender *)

Lemma set_sent_mail_nil w : set_sent_mail (fun log => (log ++ [])%list) w = w.
Proof. destruct w. unfold set_sent_mail. simpl. by rewrite app_nil_r. Qed.

Lemma set_sent_mail_app mail mails w :
  set_sent_mail (fun log => (log ++ mails)%list)
    (set_sent_mail (fun log => (log ++ [mail])%list) w) =
  set_sent_mail (fun log => (log ++ mail :: mails)%list) w.
Proof. unfold set_sent_mail. simpl. by rewrite <- app_assoc. Qed.

(** With [sendDownloadEmail] as the sender the loop only ever sends: it stops
    at the first delivered mail, or after [remaining] failed ones. *)
Lemma retry_loop_sendDownloadEmail transport params maxRetries remaining attempt w :
  exists (n : nat) (ok : bool) (mails : list Mail),
    retry_loop (fun a => sendDownloadEmail (transport a) params)
      maxRetries remaining attempt w =
      (ok, set_sent_mail (fun log => (log ++ mails)%list) w) /\
    length mails = n /\ (n <= remaining)%nat /\
    (forall k, (k + 1 < n)%nat -> transport (attempt + k)%nat = false) /\
    (if ok then (1 <= n)%nat /\ transport (attempt + n - 1)%nat = true
     else n = remaining /\ forall k, (k < n)%nat -> transport (attempt + k)%nat = false).
Proof.
  revert attempt w. induction remaining as [|remaining IH]; intros attempt w.
  - exists 0%nat, false, []. simpl. rewrite set_sent_mail_nil.
    repeat split; try done; intros; lia.
  - simpl. destruct (transport attempt) eqn:T.
    + eexists 1%nat, true, [_]. repeat split; try done; try lia.
      replace (attempt + 1 - 1)%nat with attempt by lia. done.
    + destruct (IH (S attempt)
                 (set_sent_mail
                    (fun log => (log ++ [{| mail_to := buyerEmail params;
                          mail_artworkTitle := artworkTitle params;
                          mail_artistName := artistName params;
                          mail_downloadToken := downloadToken params;
                          mail_purchaseAmount_cents := purchaseAmount_cents params;
                          mail_delivered := false |}])%list) w))
        as (n & ok & mails & Hrun & Hlen & Hle & Hfail & Hok).
      eexists (S n), ok, (_ :: mails). rewrite Hrun, set_sent_mail_app.
      repeat split; try done; simpl; try lia.
      * intros k Hk. destruct k as [|k].
        -- by replace (attempt + 0)%nat with attempt by lia.
        -- replace (attempt + S k)%nat with (S attempt + k)%nat by lia.
           apply Hfail. lia.
      * destruct ok.
        -- destruct Hok as [Hn Ht]. split; [lia|].
           replace (attempt + S n - 1)%nat with (S attempt + n - 1)%nat by lia. done.
        -- destruct Hok as [Hn Hall]. split; [lia|].
           intros k Hk. destruct k as [|k].
           ++ by replace (attempt + 0)%nat with attempt by lia.
           ++ replace (attempt + S k)%nat with (S attempt + k)%nat by lia.
              apply Hall. lia.
Qed.

(** C9 (the code misses the backoff): for every behaviour of the transport
    the download e-mail sender makes between one and three [sendMail] calls
    and nothing else, stops with [true] at the first call that is delivered,
    ends with [false] after three failed calls and always returns a boolean.
    But it never waits.  The backoff of the retry loop sits in its [catch]
    branch, and [sendDownloadEmail] turns every failure of the transport into
    the value [false]; a failed attempt is followed by the next at once.
    With a transport that rejects every mail the call makes its three
    attempts, answers [false] and has waited neither 2 s nor 4 s. *)
Theorem C9_failed_sends_retried_without_wait (transport : nat -> bool)
    (params : EmailParams) (w : World) :
  let run := send_download_email transport params w in
  let rejected := send_download_email (fun _ => false) params w in
  (exists (n : nat) (mails : list Mail),
     (1 <= n <= 3)%nat /\ length mails = n /\
     snd run = set_sent_mail (fun log => (log ++ mails)%list) w /\
     (forall k, (1 <= k < n)%nat -> transport k = false) /\
     transport n = fst run /\
     (fst run = false -> n = 3%nat)) /\
  sleeps (snd run) = sleeps w /\
  fst rejected = false /\
  length (sent_mail (snd rejected)) = (length (sent_mail w) + 3)%nat /\
  Forall (fun mail => mail_delivered mail = false)
    (drop (length (sent_mail w)) (sent_mail (snd rejected))) /\
  sleeps (snd rejected) = sleeps w.
Proof.
  intros run rejected. split; [|split].
  - subst run. unfold send_download_email, sendDownloadEmailWithRetry.
    destruct (retry_loop_sendDownloadEmail transport params 3 3 1 w)
      as (n & ok & mails & Hrun & Hlen & Hle & Hfail & Hok).
    rewrite Hrun. simpl. exists n, mails.
    destruct ok.
    + destruct Hok as [Hn Ht].
      replace (1 + n - 1)%nat with n in Ht by lia.
      repeat split; try done; try lia.
      intros k Hk. replace k with (1 + (k - 1))%nat by lia. apply Hfail. lia.
    + destruct Hok as [-> Hall].
      repeat split; try done; try lia.
      * intros k Hk. replace k with (1 + (k - 1))%nat by lia. apply Hall. lia.
      * apply (Hall 2%nat). lia.
  - subst run. unfold send_download_email, sendDownloadEmailWithRetry.
    destruct (retry_loop_sendDownloadEmail transport params 3 3 1 w)
      as (n & ok & mails & Hrun & _).
    by rewrite Hrun.
  - subst rejected. unfold send_download_email, sendDownloadEmailWithRetry.
    simpl. rewrite !length_app. simpl.
    repeat split; try done; try lia.
    rewrite <- !app_assoc, drop_app_length. simpl.
    by repeat constructor.
Qed.

(** ** The idempotency ledger *)

Lemma checkProcessedEvent_lookup env key w :
  fst (checkProcessedEvent env key w) = ledger_lookup key w.
Proof.
  unfold checkProcessedEvent, ledger_lookup.
  destruct (processedEvents w !! key); [done|].
  by destruct (single _).
Qed.

Lemma checkProcessedEvent_same env key w :
  same_fulfilment w (snd (checkProcessedEvent env key w)).
Proof.
  unfold checkProcessedEvent.
  destruct (processedEvents w !! key); [by repeat split|].
  destruct (single _); by repeat split.
Qed.

Lemma checkProcessedEvent_miss env key w :
  ledger_lookup key w = None -> checkProcessedEvent env key w = (None, w).
Proof.
  unfold checkProcessedEvent, ledger_lookup.
  destruct (processedEvents w !! key); [done|].
  by destruct (single _).
Qed.

Lemma markEventProcessed_same env key r w :
  same_fulfilment w (markEventProcessed env key r w).
Proof.
  unfold markEventProcessed. destruct (webhook_events_insert_error env);
    by repeat split.
Qed.

Lemma markEventProcessed_cached env key r w :
  processedEvents (markEventProcessed env key r w) !! key = Some (clock env, r).
Proof.
  unfold markEventProcessed. destruct (webhook_events_insert_error env);
    simpl; apply lookup_insert_eq.
Qed.

Lemma same_fulfilment_trans w1 w2 w3 :
  same_fulfilment w1 w2 -> same_fulfilment w2 w3 -> same_fulfilment w1 w3.
Proof.
  unfold same_fulfilment. intros (?&?&?&?&?&?&?) (?&?&?&?&?&?&?).
  repeat split; congruence.
Qed.

(** C4: a request whose signature does not verify is answered with the
    400 error and the world is the one before the call: no ledger entry, no
    purchase, no edition count, no token, no mail and no mint job differs. *)
Theorem C4_invalid_signature_no_effect (env : Env) (request : NextRequest) (w : World) :
  constructEvent (body request) (stripe_signature request) = None ->
  POST env request w = (json_error 400 "Webhook signature verification failed", w).
Proof. intros H. unfold POST. by rewrite H. Qed.

(** ** Statements on the store *)

Lemma purchases_insert_inr env pi row w pid w1 :
  purchases_insert env pi row w = inr (pid, w1) ->
  exists intent,
    pi = Some intent /\ pid = next_id (purchases w) /\
    w1 = set_purchases (insert pid (row intent)) w /\
    purchases_insert_error env = None /\
    is_Some (artworks w !! artwork_id (row intent)).
Proof.
  unfold purchases_insert. intros H.
  destruct (purchases_insert_error env); [done|].
  destruct pi as [intent|]; [|done]. exists intent.
  destruct (negb (bool_decide (select _ _ = []))); [done|].
  destruct (bool_decide (is_Some _)) eqn:E; [|done].
  apply bool_decide_eq_true in E. by simplify_eq/=.
Qed.

Lemma purchases_insert_duplicate env row w k p :
  purchases w !! k = Some p ->
  exists message,
    purchases_insert env (Some (stripe_payment_intent_id p)) row w = inl message.
Proof.
  intros Hk. unfold purchases_insert.
  destruct (purchases_insert_error env); [eauto|].
  rewrite bool_decide_eq_false_2; [simpl; eauto|].
  intros Hnil.
  assert (Hin : (k, p) ∈ select (fun q => String.eqb (stripe_payment_intent_id q)
                                           (stripe_payment_intent_id p)) (purchases w)).
  { apply select_elem. split; [done|apply String.eqb_refl]. }
  rewrite Hnil in Hin. inversion Hin.
Qed.

Lemma rpc_increment_cases env artworkId w :
  rpc_increment_artwork_editions env artworkId w =
    match increment_rpc_error env with
    | Some message => (Some message, w)
    | None => (None, set_artworks (increment_artwork_editions artworkId) w)
    end.
Proof. done. Qed.

Lemma download_tokens_insert_cases env pid tok expiresAt key w :
  (exists message, download_tokens_insert env pid tok expiresAt key w = (Some message, w)) \/
  (download_tokens_insert env pid tok expiresAt key w =
     (None, set_download_tokens
              (insert (next_id (download_tokens w))
                 {| purchase_id := pid; token := tok; expires_at := expiresAt;
                    used_at := None; download_count := 0; max_downloads := 3;
                    token_idempotency_key := key |}) w) /\
   download_tokens_insert_error env = None).
Proof.
  unfold download_tokens_insert.
  destruct (download_tokens_insert_error env); [eauto|].
  destruct (negb (bool_decide (select _ _ = []))); [eauto|].
  destruct (negb (bool_decide (is_Some _))); eauto.
Qed.

Lemma purchases_delete_inserted pid p (f : gmap Z Artwork -> gmap Z Artwork)
    (g : gmap Z DownloadToken -> gmap Z DownloadToken) w :
  purchases w !! pid = None ->
  purchases (purchases_delete pid
               (set_download_tokens g (set_artworks f (set_purchases (insert pid p) w)))) =
  purchases w.
Proof. intros H. simpl. by apply delete_insert_id. Qed.

Lemma send_download_email_mail transport params w :
  exists mails,
    snd (send_download_email transport params w) =
    set_sent_mail (fun log => (log ++ mails)%list) w.
Proof.
  unfold send_download_email, sendDownloadEmailWithRetry.
  destruct (retry_loop_sendDownloadEmail transport params 3 3 1 w)
    as (n & ok & mails & Hrun & _).
  rewrite Hrun. by exists mails.
Qed.

(** ** The webhook *)

Lemma lacks_falsy o : lacks o -> truthy_str o = false.
Proof. by intros [->| ->]. Qed.

Lemma lacks_missing_metadata session :
  lacks (metadata session ≫= metadata_artworkId) \/
  lacks (metadata session ≫= metadata_buyerEmail) ->
  missing_metadata session = true.
Proof.
  unfold missing_metadata. intros [H|H].
  - unfold or_str. by rewrite (lacks_falsy _ H).
  - rewrite (lacks_falsy _ H). apply orb_true_r.
Qed.

Lemma process_missing_metadata env event session w :
  object event = checkout_session_completed session ->
  missing_metadata session = true ->
  processEventWithTransaction env event w =
    ({| received := false; error := Some "Missing required metadata" |}, w).
Proof.
  intros Hobj Hm. unfold processEventWithTransaction. rewrite Hobj.
  unfold missing_metadata in Hm. by rewrite Hm.
Qed.

Lemma process_existing_purchase env event session w :
  object event = checkout_session_completed session ->
  missing_metadata session = false ->
  is_Some (existing_purchase session w) ->
  processEventWithTransaction env event w = (ok_result, w).
Proof.
  intros Hobj Hm [x Hx]. unfold processEventWithTransaction. rewrite Hobj.
  unfold missing_metadata in Hm. rewrite Hm.
  unfold existing_purchase in Hx. by rewrite Hx.
Qed.

Lemma POST_hit env request w event r :
  constructEvent (body request) (stripe_signature request) = Some event ->
  ledger_lookup (eventKey request event) w = Some r ->
  POST env request w =
    (json_result r, snd (checkProcessedEvent env (eventKey request event) w)).
Proof.
  intros He Hl. unfold POST. rewrite He.
  pose proof (checkProcessedEvent_lookup env (eventKey request event) w) as Hc.
  destruct (checkProcessedEvent _ _ _) as [o w1]. simpl in *.
  rewrite Hl in Hc. by subst.
Qed.

Lemma POST_miss env request w event :
  constructEvent (body request) (stripe_signature request) = Some event ->
  ledger_lookup (eventKey request event) w = None ->
  POST env request w =
    (json_result (fst (processEventWithTransaction env event w)),
     markEventProcessed env (eventKey request event)
       (fst (processEventWithTransaction env event w))
       (snd (processEventWithTransaction env event w))).
Proof.
  intros He Hl. unfold POST. rewrite He, (checkProcessedEvent_miss _ _ _ Hl).
  by destruct (processEventWithTransaction env event w).
Qed.

Lemma POST_cached env request w event cached :
  constructEvent (body request) (stripe_signature request) = Some event ->
  processedEvents w !! eventKey request event = Some cached ->
  POST env request w = (json_result (snd cached), w).
Proof.
  intros He Hc. unfold POST, checkProcessedEvent. by rewrite He, Hc.
Qed.

(** C10: a checkout.session.completed event whose metadata lacks the artwork
    id or the buyer e-mail, under a key the ledger does not hold yet, is
    answered with received = false and 'Missing required metadata'; no
    purchase, edition count, token, mail or mint job differs afterwards; the
    ledger then holds that result under the key, and a redelivery is answered
    with the same result and changes nothing. *)
Theorem C10_missing_metadata_recorded (env env' : Env) (request : NextRequest)
    (w : World) (event : Event) (session : Session) :
  constructEvent (body request) (stripe_signature request) = Some event ->
  object event = checkout_session_completed session ->
  lacks (metadata session ≫= metadata_artworkId) \/
  lacks (metadata session ≫= metadata_buyerEmail) ->
  ledger_lookup (eventKey request event) w = None ->
  let r := {| received := false; error := Some "Missing required metadata" |} in
  fst (POST env request w) = json_result r /\
  same_fulfilment w (snd (POST env request w)) /\
  ledger_lookup (eventKey request event) (snd (POST env request w)) = Some r /\
  POST env' request (snd (POST env request w)) =
    (json_result r, snd (POST env request w)).
Proof.
  intros He Hobj Hlack Hl r.
  apply lacks_missing_metadata in Hlack.
  rewrite (POST_miss _ _ _ _ He Hl).
  rewrite (process_missing_metadata _ _ _ _ Hobj Hlack). simpl. fold r.
  pose proof (markEventProcessed_cached env (eventKey request event) r w) as Hc.
  repeat split; try apply markEventProcessed_same.
  - unfold ledger_lookup. by rewrite Hc.
  - by rewrite (POST_cached _ _ _ _ _ He Hc).
Qed.

(** The webhook once the purchase row is inserted: when the row is gone
    afterwards, and what it is when it stays. *)
Lemma process_after_insert (env : Env) (event : Event)
    (session : Session) (w : World) (pid : Z) (w1 : World) :
  object event = checkout_session_completed session ->
  missing_metadata session = false ->
  existing_purchase session w = None ->
  purchases_insert env (payment_intent session)
    (purchase_row (session_artworkId session) (session_buyerEmail session)
       (session_wallet session) session) w = inr (pid, w1) ->
  let w2 := snd (rpc_increment_artwork_editions env (session_artworkId session) w1) in
  let inserted :=
    download_tokens_insert env pid (generateSecureToken env)
      (clock env + 7 * 24 * 60 * 60 * 1000)
      (generateIdempotencyKey (String.append (session_id session) "_token")) w2 in
  let r := fst (processEventWithTransaction env event w) in
  let w' := snd (processEventWithTransaction env event w) in
  (purchases w' !! pid = None <->
   is_Some (increment_rpc_error env) \/ is_Some (fst inserted) \/
   select_artwork (session_artworkId session) (snd inserted) = None) /\
  (purchases w' !! pid = None -> received r = false /\ purchases w' = purchases w) /\
  (forall p, purchases w' !! pid = Some p ->
     r = ok_result /\ purchases w' = <[pid := p]> (purchases w) /\
     exists intent,
       payment_intent session = Some intent /\
       let row := purchase_row (session_artworkId session) (session_buyerEmail session)
                    (session_wallet session) session intent in
       (p = row \/ p = set_download_sent row)).
Proof.
  intros Hobj Hm Hex Hins.
  pose proof (purchases_insert_inr _ _ _ _ _ _ Hins)
    as (intent & Hpi & Hpid & Hw1 & _ & _).
  pose proof (next_id_fresh (purchases w)) as Hfresh. rewrite <- Hpid in Hfresh.
  unfold processEventWithTransaction. rewrite Hobj.
  unfold missing_metadata in Hm. rewrite Hm.
  unfold existing_purchase in Hex. rewrite Hex.
  unfold session_artworkId, session_buyerEmail, session_wallet in *.
  rewrite Hins. rewrite rpc_increment_cases.
  set (aid := default 0 (parseInt _)) in *.
  destruct (increment_rpc_error env) as [m|] eqn:Hrpc; cbn [fst snd].
  { subst w1. simpl. rewrite lookup_delete_eq, delete_insert_id by done.
    split; [split; [intros _; eauto|done]|]. split; [done|]. by intros p Hp. }
  match goal with
  | |- context [download_tokens_insert ?e ?i ?t ?x ?k ?v] =>
      destruct (download_tokens_insert_cases e i t x k v) as [[m Hd]|[Hd _]];
      rewrite Hd; cbn [fst snd]
  end.
  { subst w1. simpl. rewrite lookup_delete_eq, delete_insert_id by done.
    split; [split; [intros _; eauto|done]|]. split; [done|]. by intros p Hp. }
  destruct (select_artwork aid _) as [[artwork artist]|] eqn:Hsel.
  2: { subst w1. simpl. rewrite lookup_delete_eq, delete_insert_id by done.
       split; [split; [intros _; eauto|done]|]. split; [done|]. by intros p Hp. }
  match goal with
  | |- context [send_download_email ?t ?ps ?v] =>
      destruct (send_download_email_mail t ps v) as [mails Hmail];
      destruct (send_download_email t ps v) as [emailSent w4]
  end.
  simpl in Hmail. subst w4 w1.
  assert (Hno : ~ (is_Some (@None string) \/ is_Some (@None string) \/
                   Some (artwork, artist) = None)).
  { intros [[? ?]|[[? ?]|?]]; done. }
  destruct emailSent, (truthy_str (metadata session ≫= metadata_buyerWalletAddress));
    simpl; rewrite ?alter_insert_eq, ?lookup_insert_eq;
    (split; [split; [done|by intros ?%Hno]|]);
    (split; [done|]); intros p [= <-]; (split; [done|]); (split; [done|]);
    exists intent; (split; [done|]); simpl; auto.
Qed.


(** C3, amended: the purchase row the webhook inserted is gone afterwards
    exactly when the edition increment reports an error, the token insertion
    reports an error, or the artwork lookup that follows the token insertion
    finds no artwork with an artist; the answer is then a failure and the
    purchases are those before the call.  In every other run, whatever the
    mail transport does and whether or not a mint job is queued, the answer
    is received = true and the row is still there, equal to the inserted row
    up to its download_sent flag. *)
Theorem C3_compensation_until_artwork_lookup (env : Env) (event : Event)
    (session : Session) (w : World) (pid : Z) (w1 : World) :
  object event = checkout_session_completed session ->
  missing_metadata session = false ->
  existing_purchase session w = None ->
  purchases_insert env (payment_intent session)
    (purchase_row (session_artworkId session) (session_buyerEmail session)
       (session_wallet session) session) w = inr (pid, w1) ->
  let w2 := snd (rpc_increment_artwork_editions env (session_artworkId session) w1) in
  let inserted :=
    download_tokens_insert env pid (generateSecureToken env)
      (clock env + 7 * 24 * 60 * 60 * 1000)
      (generateIdempotencyKey (String.append (session_id session) "_token")) w2 in
  let r := fst (processEventWithTransaction env event w) in
  let w' := snd (processEventWithTransaction env event w) in
  (purchases w' !! pid = None <->
   is_Some (increment_rpc_error env) \/ is_Some (fst inserted) \/
   select_artwork (session_artworkId session) (snd inserted) = None) /\
  (purchases w' !! pid = None -> received r = false /\ purchases w' = purchases w) /\
  (forall p, purchases w' !! pid = Some p ->
     r = ok_result /\ purchases w' = <[pid := p]> (purchases w) /\
     exists intent,
       payment_intent session = Some intent /\
       let row := purchase_row (session_artworkId session) (session_buyerEmail session)
                    (session_wallet session) session intent in
       (p = row \/ p = set_download_sent row)).
Proof. apply process_after_insert. Qed.

(** A delivery after which there is a purchase row that was not there before
    answered received = true. *)
Lemma process_created_ok env event w k :
  purchases w !! k = None ->
  is_Some (purchases (snd (processEventWithTransaction env event w)) !! k) ->
  fst (processEventWithTransaction env event w) = ok_result.
Proof.
  intros Hk Hnew.
  destruct (object event) as [session|intent|ty] eqn:Hobj;
    [|by unfold processEventWithTransaction; rewrite Hobj..].
  destruct (missing_metadata session) eqn:Hm.
  { rewrite (process_missing_metadata _ _ _ _ Hobj Hm) in Hnew. simpl in Hnew.
    rewrite Hk in Hnew. by destruct Hnew. }
  destruct (existing_purchase session w) as [x|] eqn:Hex.
  { by rewrite (process_existing_purchase _ _ _ _ Hobj Hm). }
  destruct (purchases_insert env (payment_intent session)
              (purchase_row (session_artworkId session) (session_buyerEmail session)
                 (session_wallet session) session) w) as [m|[pid w1]] eqn:Hins.
  { exfalso. revert Hnew. unfold processEventWithTransaction. rewrite Hobj.
    unfold missing_metadata in Hm. rewrite Hm.
    unfold existing_purchase in Hex. rewrite Hex.
    unfold session_artworkId, session_buyerEmail, session_wallet in Hins.
    rewrite Hins. simpl. rewrite Hk. by intros []. }
  pose proof (process_after_insert _ _ _ _ _ _ Hobj Hm Hex Hins) as (_ & Hgone & Hkept).
  destruct (purchases (snd (processEventWithTransaction env event w)) !! pid)
    as [p|] eqn:Hp.
  - by destruct (Hkept p eq_refl).
  - destruct (Hgone eq_refl) as [_ Heq]. rewrite Heq, Hk in Hnew. by destruct Hnew.
Qed.

Lemma same_fulfilment_refl w : same_fulfilment w w.
Proof. by repeat split. Qed.

(** With the purchase of the event's own payment intent in the store, the
    webhook changes nothing, however many rows bear the session id. *)
Lemma process_own_row env event session w k p :
  object event = checkout_session_completed session ->
  purchases w !! k = Some p ->
  payment_intent session = Some (stripe_payment_intent_id p) ->
  snd (processEventWithTransaction env event w) = w.
Proof.
  intros Hobj Hk Hpi. unfold processEventWithTransaction. rewrite Hobj.
  destruct (_ || _); [done|]. destruct (single _); [done|].
  rewrite Hpi.
  match goal with
  | |- context [purchases_insert ?e _ ?r ?v] =>
      destruct (purchases_insert_duplicate e r v k p Hk) as [message ->]
  end.
  done.
Qed.

(** C2: when the ledger holds a result for the event key, the webhook answers
    with that result and no purchase, token, edition count, mail or mint job
    differs afterwards.  When the purchases hold the one row of the event's
    session id, nothing of these differs either, and on a ledger miss the
    answer is received = true, which is what every delivery that created a
    purchase row answered.  When the purchases hold a row with the event's
    payment intent, nothing of these differs, however many rows bear the
    session id. *)
Theorem C2_redelivery_no_new_effects (env : Env) (request : NextRequest) (w : World)
    (event : Event) :
  constructEvent (body request) (stripe_signature request) = Some event ->
  (forall r, ledger_lookup (eventKey request event) w = Some r ->
     fst (POST env request w) = json_result r /\
     same_fulfilment w (snd (POST env request w))) /\
  (forall session,
     object event = checkout_session_completed session ->
     is_Some (existing_purchase session w) ->
     same_fulfilment w (snd (POST env request w)) /\
     (ledger_lookup (eventKey request event) w = None ->
      missing_metadata session = false ->
      fst (POST env request w) = json_result ok_result)) /\
  (forall env0 w0 k,
     purchases w0 !! k = None ->
     is_Some (purchases (snd (processEventWithTransaction env0 event w0)) !! k) ->
     fst (processEventWithTransaction env0 event w0) = ok_result) /\
  (forall session k p,
     object event = checkout_session_completed session ->
     purchases w !! k = Some p ->
     payment_intent session = Some (stripe_payment_intent_id p) ->
     same_fulfilment w (snd (POST env request w))).
Proof.
  intros He. split; [|split; [|split]].
  - intros r Hl. rewrite (POST_hit _ _ _ _ _ He Hl). simpl.
    split; [done|apply checkProcessedEvent_same].
  - intros session Hobj Hex.
    destruct (ledger_lookup (eventKey request event) w) as [r|] eqn:Hl.
    + rewrite (POST_hit _ _ _ _ _ He Hl). simpl.
      split; [apply checkProcessedEvent_same|done].
    + rewrite (POST_miss _ _ _ _ He Hl). simpl.
      destruct (missing_metadata session) eqn:Hm.
      * rewrite (process_missing_metadata _ _ _ _ Hobj Hm). simpl.
        split; [apply markEventProcessed_same|done].
      * rewrite (process_existing_purchase _ _ _ _ Hobj Hm Hex). simpl.
        split; [apply markEventProcessed_same|done].
  - intros env0 w0 k. apply process_created_ok.
  - intros session k p Hobj Hk Hpi.
    destruct (ledger_lookup (eventKey request event) w) as [r|] eqn:Hl.
    + rewrite (POST_hit _ _ _ _ _ He Hl). apply checkProcessedEvent_same.
    + rewrite (POST_miss _ _ _ _ He Hl). simpl.
      rewrite (process_own_row _ _ _ _ _ _ Hobj Hk Hpi).
      apply markEventProcessed_same.
Qed.

Lemma checkProcessedEvent_again env env' key w r :
  ledger_lookup key w = Some r ->
  ledger_lookup key (snd (checkProcessedEvent env key w)) = Some r /\
  snd (checkProcessedEvent env' key (snd (checkProcessedEvent env key w))) =
  snd (checkProcessedEvent env key w).
Proof.
  unfold checkProcessedEvent, ledger_lookup.
  destruct (processedEvents w !! key) as [c|] eqn:Hc; simpl.
  - rewrite Hc. by intros [= <-].
  - destruct (single _) as [row|]; [|done]. simpl.
    intros [= <-]. by rewrite lookup_insert_eq.
Qed.

(** Delivering a request twice in a row: the second answer is the first one,
    and the second delivery changes nothing at all. *)
Lemma POST_twice env env' request w :
  POST env' request (snd (POST env request w)) =
  (fst (POST env request w), snd (POST env request w)).
Proof.
  destruct (constructEvent (body request) (stripe_signature request))
    as [event|] eqn:He.
  2: { unfold POST. rewrite He. simpl. by rewrite ?He. }
  destruct (ledger_lookup (eventKey request event) w) as [r|] eqn:Hl.
  - rewrite (POST_hit _ _ _ _ _ He Hl). simpl.
    destruct (checkProcessedEvent_again env env' _ _ _ Hl) as [Hl' Hw].
    by rewrite (POST_hit _ _ _ _ _ He Hl'), Hw.
  - rewrite (POST_miss _ _ _ _ He Hl). simpl.
    by rewrite (POST_cached _ _ _ _ _ He (markEventProcessed_cached _ _ _ _)).
Qed.

(** ** The download count stays within the limit *)

Lemma tokens_extend_refl m : tokens_extend m m.
Proof. intros k t H. by left. Qed.

Lemma tokens_extend_filter (P : Z * DownloadToken -> Prop)
    `{!forall x, Decision (P x)} m m' :
  tokens_extend m m' -> tokens_extend m (filter P m').
Proof.
  intros Hext k t Hk. apply map_lookup_filter_Some in Hk as [Hk _]. by apply Hext.
Qed.

Lemma tokens_extend_insert m m' k t :
  tokens_extend m m' -> download_count t = 0 -> max_downloads t = 3 ->
  tokens_extend m (<[k := t]> m').
Proof.
  intros H Hc Hm k' t' Hk'.
  destruct (decide (k = k')) as [->|Hne].
  - rewrite lookup_insert_eq in Hk'. simplify_eq. by right.
  - rewrite lookup_insert_ne in Hk' by done. by apply H.
Qed.

Lemma within_limit_extend w w' :
  within_limit w -> tokens_extend (download_tokens w) (download_tokens w') ->
  within_limit w'.
Proof.
  intros Hw Hext k t Hk. destruct (Hext k t Hk) as [H|[Hc Hm]].
  - by apply (Hw k t).
  - simpl. lia.
Qed.

Lemma process_tokens env event w :
  tokens_extend (download_tokens w)
    (download_tokens (snd (processEventWithTransaction env event w))).
Proof.
  unfold processEventWithTransaction.
  destruct (object event) as [session|intent|ty];
    [|destruct (purchases_update_error env); apply tokens_extend_refl
     |apply tokens_extend_refl].
  destruct (_ || _); [apply tokens_extend_refl|].
  destruct (single _); [apply tokens_extend_refl|].
  destruct (purchases_insert _ _ _ _) as [m|[pid w1]] eqn:Hins;
    [apply tokens_extend_refl|].
  apply purchases_insert_inr in Hins as (intent & _ & _ & -> & _).
  rewrite rpc_increment_cases.
  destruct (increment_rpc_error env).
  { apply tokens_extend_filter, tokens_extend_refl. }
  match goal with
  | |- context [download_tokens_insert ?e ?i ?t ?x ?k ?v] =>
      destruct (download_tokens_insert_cases e i t x k v) as [[m Hd]|[Hd _]];
      rewrite Hd
  end.
  { apply tokens_extend_filter, tokens_extend_refl. }
  destruct (select_artwork _ _) as [[artwork artist]|].
  2: { apply tokens_extend_filter, tokens_extend_insert;
         [apply tokens_extend_refl|done..]. }
  match goal with
  | |- context [send_download_email ?t ?ps ?v] =>
      destruct (send_download_email_mail t ps v) as [mails Hmail];
      destruct (send_download_email t ps v) as [emailSent w4]
  end.
  simpl in Hmail. subst w4.
  destruct emailSent, (truthy_str _); simpl;
    (apply tokens_extend_insert; [apply tokens_extend_refl|done..]).
Qed.

Lemma POST_within_limit env request w :
  within_limit w -> within_limit (snd (POST env request w)).
Proof.
  intros Hw. unfold POST.
  destruct (constructEvent _ _) as [event|]; [|done].
  pose proof (checkProcessedEvent_same env (eventKey request event) w)
    as (_ & Ht & _).
  destruct (checkProcessedEvent _ _ _) as [[r|] w1]; simpl in *.
  - unfold within_limit. by rewrite Ht.
  - pose proof (process_tokens env event w1) as Hext.
    destruct (processEventWithTransaction env event w1) as [r w2]. simpl in *.
    pose proof (markEventProcessed_same env (eventKey request event) r w2)
      as (_ & Ht2 & _).
    unfold within_limit. rewrite Ht2.
    apply (within_limit_extend w1); [|done].
    unfold within_limit. by rewrite Ht.
Qed.

Lemma GET_within_limit now tok w :
  within_limit w -> within_limit (snd (GET now tok w)).
Proof.
  intros Hw.
  destruct (select_download_token tok w) as [[[[id t] p] a]|] eqn:Hs.
  2: { unfold GET. by rewrite Hs. }
  rewrite (GET_resolved _ _ _ _ _ _ _ Hs).
  destruct (expires_at t <? now); [done|].
  destruct (max_downloads t <=? download_count t) eqn:Hc; [done|].
  apply Z.leb_gt in Hc. simpl. unfold within_limit. simpl.
  apply map_Forall_insert_2; [simpl; lia|done].
Qed.

Lemma mint_job_tokens chain params w :
  download_tokens (mint_job chain params w) = download_tokens w.
Proof.
  unfold mint_job. destruct (getContractService_error chain); [done|].
  destruct (falsy_num _); [destruct (createToken_result chain)|];
    try done; by destruct (mintToken chain).
Qed.

Lemma step_within_limit w a : within_limit w -> within_limit (step w a).
Proof.
  intros Hw. destruct a as [env request|now tok|chain|now]; simpl.
  - by apply POST_within_limit.
  - by apply GET_within_limit.
  - unfold fire_timer. destruct (timers w) as [|job rest]; [done|].
    unfold within_limit. by rewrite mint_job_tokens.
  - done.
Qed.

Lemma GET_expired now tok w id t :
  download_tokens w !! id = Some t -> token t = tok ->
  (forall id' t', download_tokens w !! id' = Some t' -> token t' = tok -> id' = id) ->
  expires_at t < now ->
  snd (GET now tok w) = w /\
  exists status message, fst (GET now tok w) = json_error status message.
Proof.
  intros Hk Htok Huniq Hexp.
  destruct (select_download_token tok w) as [[[[id' t'] p] a]|] eqn:Hs.
  - rewrite (GET_resolved _ _ _ _ _ _ _ Hs).
    apply select_download_token_Some in Hs as (Hk' & Htok' & _).
    assert (id' = id) as -> by eauto. simplify_eq.
    rewrite (proj2 (Z.ltb_lt _ _) Hexp). eauto.
  - unfold GET. rewrite Hs. eauto.
Qed.

(** C5: along every run of webhook deliveries, downloads, mint jobs and cache
    sweeps from a world in which every token's download count is within its
    limit, every token's count stays within its limit; and a download with a
    token whose row is expired is answered with an error and changes
    nothing, whatever the row's count. *)
Theorem C5_download_count_bounded_and_expiry (w0 : World) (actions : list Action) :
  within_limit w0 ->
  within_limit (run actions w0) /\
  (forall now tok id t,
     download_tokens (run actions w0) !! id = Some t -> token t = tok ->
     (forall id' t', download_tokens (run actions w0) !! id' = Some t' ->
                     token t' = tok -> id' = id) ->
     expires_at t < now ->
     snd (GET now tok (run actions w0)) = run actions w0 /\
     exists status message,
       fst (GET now tok (run actions w0)) = json_error status message).
Proof.
  intros Hw. split.
  - revert w0 Hw. unfold run.
    induction actions as [|a actions IH]; intros w0 Hw; [done|].
    simpl. apply IH. by apply step_within_limit.
  - intros now tok id t. apply GET_expired.
Qed.

(** ** The edition counter *)

(** When the increment reports an error the inserted purchase is deleted, a
    failure is answered and no edition count differs. *)
Lemma rpc_error_compensated env event session w pid w1 message :
  object event = checkout_session_completed session ->
  missing_metadata session = false ->
  existing_purchase session w = None ->
  purchases_insert env (payment_intent session)
    (purchase_row (session_artworkId session) (session_buyerEmail session)
       (session_wallet session) session) w = inr (pid, w1) ->
  increment_rpc_error env = Some message ->
  let r := fst (processEventWithTransaction env event w) in
  let w' := snd (processEventWithTransaction env event w) in
  received r = false /\ purchases w' = purchases w /\ artworks w' = artworks w.
Proof.
  intros Hobj Hm Hex Hins Hrpc.
  pose proof (purchases_insert_inr _ _ _ _ _ _ Hins)
    as (intent & Hpi & Hpid & Hw1 & _ & _).
  pose proof (next_id_fresh (purchases w)) as Hfresh. rewrite <- Hpid in Hfresh.
  unfold processEventWithTransaction. rewrite Hobj.
  unfold missing_metadata in Hm. rewrite Hm.
  unfold existing_purchase in Hex. rewrite Hex.
  unfold session_artworkId, session_buyerEmail, session_wallet in *.
  rewrite Hins, rpc_increment_cases, Hrpc. subst w1. simpl.
  by rewrite delete_insert_id.
Qed.

(** The guarded UPDATE leaves a sold-out artwork as it is, without an
    error. *)
Lemma increment_sold_out env artworkId w a :
  increment_rpc_error env = None ->
  artworks w !! artworkId = Some a -> max_editions a <= current_editions a ->
  rpc_increment_artwork_editions env artworkId w = (None, w).
Proof.
  intros He Ha Hsold. rewrite rpc_increment_cases, He. f_equal.
  destruct w. unfold set_artworks, increment_artwork_editions. simpl in *.
  rewrite Ha. by rewrite (proj2 (Z.ltb_ge _ _) Hsold).
Qed.

(** ** The mint path *)





(** With a priority fee that is not negative the reduced envelope is above
    the ceiling whenever the gas price is. *)
Remark reduced_fee_above_ceiling (gasEstimate : GasEstimate) :
  0 <= maxPriorityFeePerGas gasEstimate ->
  gasPrice gasEstimate > MAX_GAS_PRICE ->
  checkGasPrice gasEstimate = inl (gasPrice gasEstimate).
Proof.
  intros Hp Hg. unfold checkGasPrice.
  rewrite (proj2 (Z.gtb_gt _ _)) by lia.
  pose proof (Z.quot_pos (maxPriorityFeePerGas gasEstimate) 2 Hp).
  rewrite (proj2 (Z.gtb_gt _ _)); [done|lia].
Qed.

(** C8 (the code's retry cannot succeed): when the estimated gas price is
    above the ceiling of 100 gwei, the mint halves the priority fee and takes
    the gas price plus that half as the new fee.  This fee is at least the
    gas price, which is above the ceiling already: with a priority fee that
    is not negative (the provider's, or 1 gwei) the second test fails too,
    the mint throws the gas price error and no transaction is sent. *)
Theorem C8_reduced_fee_never_submits (chain : Chain) :
  let gasEstimate := estimateGasWithBuffer chain in
  0 <= maxPriorityFeePerGas gasEstimate ->
  gasPrice gasEstimate > MAX_GAS_PRICE ->
  MAX_GAS_PRICE = 100 * 10 ^ 9 /\
  gasPrice gasEstimate + maxPriorityFeePerGas gasEstimate ÷ 2 > MAX_GAS_PRICE /\
  mintNFTWithGasEstimation chain =
    (inl (GasPriceTooHigh (gasPrice gasEstimate)), []) /\
  mintToken chain = inl (GasPriceTooHigh (gasPrice gasEstimate)).
Proof.
  intros gasEstimate Hp Hg.
  pose proof (Z.quot_pos (maxPriorityFeePerGas gasEstimate) 2 Hp).
  split; [done|]. split; [lia|].
  assert (Hm : mintNFTWithGasEstimation chain =
               (inl (GasPriceTooHigh (gasPrice gasEstimate)), [])).
  { unfold mintNFTWithGasEstimation. fold gasEstimate.
    by rewrite reduced_fee_above_ceiling. }
  split; [done|]. unfold mintToken. by rewrite Hm.
Qed.

(** The gas check as the code has it: within the ceiling the mint goes on to
    send the transaction with the gas limit, the fee and the priority fee of
    the estimate; the gas price error is thrown only for a gas price above the
    ceiling whose reduced envelope is above it too; the gas limit is the
    buffered estimate whenever the estimation succeeded. *)
Lemma gas_check_outcomes (chain : Chain) :
  let gasEstimate := estimateGasWithBuffer chain in
  let priority := maxPriorityFeePerGas gasEstimate ÷ 2 in
  let overrides := {| gasLimit := estimatedGas gasEstimate;
                      tx_maxFeePerGas := maxFeePerGas gasEstimate;
                      tx_maxPriorityFeePerGas := maxPriorityFeePerGas gasEstimate |} in
  (gasPrice gasEstimate <= MAX_GAS_PRICE ->
   checkGasPrice gasEstimate = inr overrides /\
   snd (mintNFTWithGasEstimation chain) =
     match send_mintToken chain overrides with
     | inl _ => []
     | inr _ => [overrides]
     end) /\
  (forall price,
     fst (mintNFTWithGasEstimation chain) = inl (GasPriceTooHigh price) ->
     price = gasPrice gasEstimate /\ gasPrice gasEstimate > MAX_GAS_PRICE /\
     gasPrice gasEstimate + priority > MAX_GAS_PRICE /\
     snd (mintNFTWithGasEstimation chain) = []) /\
  (forall gas feeData,
     estimateGas chain = Some gas -> getFeeData chain = Some feeData ->
     estimatedGas gasEstimate = gasWithBuffer gas).
Proof.
  intros gasEstimate priority overrides.
  split; [|split].
  - intros Hle.
    assert (Hc : checkGasPrice gasEstimate = inr overrides).
    { unfold checkGasPrice. by rewrite Z.gtb_ltb, (proj2 (Z.ltb_ge _ _)). }
    split; [done|]. unfold mintNFTWithGasEstimation. fold gasEstimate.
    rewrite Hc. destruct (send_mintToken chain overrides); [done|].
    destruct (tx_status _); try done; by destruct (tx_wait chain _).
  - intros price. unfold mintNFTWithGasEstimation, checkGasPrice.
    fold gasEstimate. fold priority.
    destruct (gasPrice gasEstimate >? MAX_GAS_PRICE) eqn:Hg.
    + destruct (gasPrice gasEstimate + priority >? MAX_GAS_PRICE) eqn:Hf.
      * simpl. intros [= <-]. apply Z.gtb_gt in Hg, Hf. done.
      * destruct (send_mintToken chain _); [done|].
        destruct (tx_status _); try done; by destruct (tx_wait chain _).
    + destruct (send_mintToken chain _); [done|].
      destruct (tx_status _); try done; by destruct (tx_wait chain _).
  - intros gas feeData Hg Hf. unfold gasEstimate, estimateGasWithBuffer.
    by rewrite Hg, Hf.
Qed.

(** ** A paid session is fulfilled *)

Lemma send_download_email_result transport params w :
  fst (send_download_email transport params w) =
    transport 1%nat || transport 2%nat || transport 3%nat /\
  exists mails,
    snd (send_download_email transport params w) =
      set_sent_mail (fun log => (log ++ mails)%list) w /\
    (1 <= length mails <= 3)%nat.
Proof.
  unfold send_download_email, sendDownloadEmailWithRetry. simpl.
  destruct (transport 1%nat); simpl.
  { split; [done|]. eexists [_]. split; [done|simpl; lia]. }
  destruct (transport 2%nat); simpl.
  { split; [done|]. eexists [_; _]. rewrite set_sent_mail_app.
    split; [done|simpl; lia]. }
  destruct (transport 3%nat); simpl;
    (split; [done|]; eexists [_; _; _];
     rewrite !set_sent_mail_app; split; [done|simpl; lia]).
Qed.

Lemma purchases_insert_ok env intent row w :
  purchases_insert_error env = None ->
  (forall k p, purchases w !! k = Some p -> stripe_payment_intent_id p <> intent) ->
  is_Some (artworks w !! artwork_id (row intent)) ->
  purchases_insert env (Some intent) row w =
    inr (next_id (purchases w),
         set_purchases (insert (next_id (purchases w)) (row intent)) w).
Proof.
  intros He Huniq Hfk. unfold purchases_insert. rewrite He.
  rewrite select_nil.
  2: { intros k p Hk. apply String.eqb_neq. eauto. }
  rewrite bool_decide_eq_true_2 by done. simpl.
  by rewrite bool_decide_eq_true_2.
Qed.

Lemma download_tokens_insert_ok env pid tok expiresAt key w :
  download_tokens_insert_error env = None ->
  (forall k t, download_tokens w !! k = Some t -> token t <> tok) ->
  is_Some (purchases w !! pid) ->
  download_tokens_insert env pid tok expiresAt key w =
    (None, set_download_tokens
             (insert (next_id (download_tokens w))
                {| purchase_id := pid; token := tok; expires_at := expiresAt;
                   used_at := None; download_count := 0; max_downloads := 3;
                   token_idempotency_key := key |}) w).
Proof.
  intros He Huniq Hfk. unfold download_tokens_insert. rewrite He.
  rewrite select_nil.
  2: { intros k t Hk. apply String.eqb_neq. eauto. }
  rewrite bool_decide_eq_true_2 by done. simpl.
  by rewrite bool_decide_eq_true_2.
Qed.

Lemma increment_available artworkId table a :
  table !! artworkId = Some a -> current_editions a < max_editions a ->
  increment_artwork_editions artworkId table = <[artworkId := edition_taken a]> table.
Proof.
  intros Ha Hlt. unfold increment_artwork_editions. rewrite Ha.
  by rewrite (proj2 (Z.ltb_lt _ _) Hlt).
Qed.

Lemma select_artwork_Some artworkId w a artist :
  select_artwork artworkId w = Some (a, artist) ->
  artworks w !! artworkId = Some a /\
  exists aid, artist_id a = Some aid /\ artists w !! aid = Some artist.
Proof.
  unfold select_artwork. intros H.
  destruct (artworks w !! artworkId) as [a'|]; [|done].
  destruct (artist_id a') as [aid|] eqn:Hid; [|done].
  destruct (artists w !! aid) as [artist'|] eqn:Har; [|done].
  simplify_eq. eauto.
Qed.

(** A checkout.session.completed event with its metadata, a payment intent
    no purchase bears, an artwork that has an artist and an edition left, a
    fresh token and no store error is fulfilled in full: the answer is
    received = true; the purchases gain one completed row under the next id,
    with download_sent set exactly when one of the three mails is delivered;
    the artwork's edition count goes up by one; the tokens gain one row for
    that purchase that expires seven days later, with no download used of
    three; between one and three mails are sent; and a mint job is queued
    exactly when a wallet address is given. *)
Theorem fulfilment_of_a_paid_session (env : Env) (event : Event) (session : Session)
    (w : World) (intent : string) (a : Artwork) (artist : Artist) :
  object event = checkout_session_completed session ->
  missing_metadata session = false ->
  existing_purchase session w = None ->
  purchases_insert_error env = None ->
  increment_rpc_error env = None ->
  download_tokens_insert_error env = None ->
  payment_intent session = Some intent ->
  (forall k p, purchases w !! k = Some p -> stripe_payment_intent_id p <> intent) ->
  (forall k t, download_tokens w !! k = Some t -> token t <> generateSecureToken env) ->
  select_artwork (session_artworkId session) w = Some (a, artist) ->
  current_editions a < max_editions a ->
  let pid := next_id (purchases w) in
  let row :=
    purchase_row (session_artworkId session) (session_buyerEmail session)
      (session_wallet session) session intent in
  let sent :=
    sendMail_resolves env 1%nat || sendMail_resolves env 2%nat
    || sendMail_resolves env 3%nat in
  let job :=
    {| purchaseId := pid; artworkId := session_artworkId session;
       job_artwork := edition_taken a; job_artist := artist;
       buyerWalletAddress := default "" (session_wallet session);
       sessionId := session_id session |} in
  let w' := snd (processEventWithTransaction env event w) in
  fst (processEventWithTransaction env event w) = ok_result /\
  purchases w' = <[pid := if sent then set_download_sent row else row]> (purchases w) /\
  artworks w' = <[session_artworkId session := edition_taken a]> (artworks w) /\
  download_tokens w' =
    <[next_id (download_tokens w) := issued_token env session pid]> (download_tokens w) /\
  timers w' =
    (timers w ++ if truthy_str (session_wallet session) then [job] else [])%list /\
  (exists mails, sent_mail w' = (sent_mail w ++ mails)%list /\
                 (1 <= length mails <= 3)%nat) /\
  sleeps w' = sleeps w.
Proof.
  intros Hobj Hm Hex Hpe Hre Hte Hpi Hpuniq Htuniq Hsel Hlt.
  destruct (select_artwork_Some _ _ _ _ Hsel) as (Ha & aid & Haid & Har).
  unfold processEventWithTransaction. rewrite Hobj.
  unfold missing_metadata in Hm. rewrite Hm.
  unfold existing_purchase in Hex. rewrite Hex.
  unfold session_artworkId, session_buyerEmail, session_wallet in *.
  set (artworkId := default 0 (parseInt _)) in *.
  rewrite Hpi, purchases_insert_ok; [|done|done|by simpl; rewrite Ha].
  rewrite rpc_increment_cases, Hre.
  rewrite download_tokens_insert_ok; [|done|done|by simpl; rewrite lookup_insert_eq].
  unfold select_artwork. simpl.
  rewrite (increment_available _ _ _ Ha Hlt), lookup_insert_eq. simpl.
  rewrite Haid, Har.
  match goal with
  | |- context [send_download_email ?t ?ps ?v] =>
      destruct (send_download_email_result t ps v) as (Hsent & mails & Hmail & Hlen);
      destruct (send_download_email t ps v) as [emailSent w4]
  end.
  simpl in Hsent, Hmail. subst emailSent w4.
  destruct (sendMail_resolves env 1%nat || sendMail_resolves env 2%nat
            || sendMail_resolves env 3%nat),
    (truthy_str (metadata session ≫= metadata_buyerWalletAddress)); simpl;
    rewrite ?alter_insert_eq, ?app_nil_r; repeat split;
    eauto using increment_available.
Qed.

(** ** The edition counter along runs *)

Lemma editions_advance_refl m : editions_advance 0 m m.
Proof. intros k. destruct (m !! k); [|done]. repeat split; lia. Qed.

Lemma editions_advance_trans n1 n2 m1 m2 m3 :
  editions_advance n1 m1 m2 -> editions_advance n2 m2 m3 ->
  editions_advance (n1 + n2) m1 m3.
Proof.
  intros H1 H2 k. specialize (H1 k). specialize (H2 k).
  destruct (m1 !! k), (m2 !! k), (m3 !! k); try done.
  destruct H1 as (? & ? & ?), H2 as (? & ? & ?).
  repeat split; try lia; try congruence; auto.
Qed.

Lemma editions_advance_weaken n n' m m' :
  n <= n' -> editions_advance n m m' -> editions_advance n' m m'.
Proof.
  intros Hn H k. specialize (H k).
  destruct (m !! k), (m' !! k); try done.
  destruct H as (? & ? & ?). repeat split; try lia; auto.
Qed.

Lemma increment_advance artworkId m :
  editions_advance 1 m (increment_artwork_editions artworkId m).
Proof.
  unfold increment_artwork_editions.
  destruct (m !! artworkId) as [a|] eqn:Ha.
  2: { apply (editions_advance_weaken 0); [lia|apply editions_advance_refl]. }
  destruct (current_editions a <? max_editions a) eqn:Hlt.
  2: { apply (editions_advance_weaken 0); [lia|apply editions_advance_refl]. }
  apply Z.ltb_lt in Hlt. intros k.
  destruct (decide (k = artworkId)) as [->|Hne].
  - rewrite Ha, lookup_insert_eq. simpl. repeat split; lia.
  - rewrite lookup_insert_ne by done. destruct (m !! k); [|done].
    repeat split; lia.
Qed.

Lemma set_token_id_advance tokenId artworkId m :
  editions_advance 0 m (alter (set_token_id tokenId) artworkId m).
Proof.
  intros k. destruct (decide (k = artworkId)) as [->|Hne].
  - rewrite lookup_alter_eq. destruct (m !! artworkId); simpl; [|done].
    repeat split; lia.
  - rewrite lookup_alter_ne by done. destruct (m !! k); [|done].
    repeat split; lia.
Qed.

(** The webhook changes the artworks by the guarded increment only. *)
Lemma process_artworks env event w :
  artworks (snd (processEventWithTransaction env event w)) = artworks w \/
  exists artworkId,
    artworks (snd (processEventWithTransaction env event w)) =
    increment_artwork_editions artworkId (artworks w).
Proof.
  unfold processEventWithTransaction.
  destruct (object event) as [session|intent|ty];
    [|destruct (purchases_update_error env); by left|by left].
  destruct (_ || _); [by left|]. destruct (single _); [by left|].
  destruct (purchases_insert _ _ _ _) as [m|[pid w1]] eqn:Hins; [by left|].
  apply purchases_insert_inr in Hins as (intent & _ & _ & -> & _).
  rewrite rpc_increment_cases.
  destruct (increment_rpc_error env); [by left|].
  match goal with
  | |- context [download_tokens_insert ?e ?i ?t ?x ?k ?v] =>
      destruct (download_tokens_insert_cases e i t x k v) as [[m Hd]|[Hd _]];
      rewrite Hd
  end.
  { right. by eexists. }
  destruct (select_artwork _ _) as [[artwork artist]|]; [|right; by eexists].
  match goal with
  | |- context [send_download_email ?t ?ps ?v] =>
      destruct (send_download_email_mail t ps v) as [mails Hmail];
      destruct (send_download_email t ps v) as [emailSent w4]
  end.
  simpl in Hmail. subst w4.
  destruct emailSent, (truthy_str _); right; by eexists.
Qed.

Lemma POST_artworks env request w :
  editions_advance 1 (artworks w) (artworks (snd (POST env request w))).
Proof.
  unfold POST.
  destruct (constructEvent _ _) as [event|].
  2: { apply (editions_advance_weaken 0); [lia|apply editions_advance_refl]. }
  pose proof (checkProcessedEvent_same env (eventKey request event) w)
    as (_ & _ & Ha & _).
  destruct (checkProcessedEvent _ _ _) as [[r|] w1]; simpl in *.
  { rewrite Ha. apply (editions_advance_weaken 0); [lia|apply editions_advance_refl]. }
  pose proof (process_artworks env event w1) as Hp.
  destruct (processEventWithTransaction env event w1) as [r w2]. simpl in *.
  pose proof (markEventProcessed_same env (eventKey request event) r w2)
    as (_ & _ & Ha2 & _).
  rewrite Ha2, <- Ha. destruct Hp as [->|[artworkId ->]].
  - apply (editions_advance_weaken 0); [lia|apply editions_advance_refl].
  - apply increment_advance.
Qed.

Lemma mint_job_artworks_advance chain params w :
  editions_advance 0 (artworks w) (artworks (mint_job chain params w)).
Proof.
  unfold mint_job. destruct (getContractService_error chain);
    [apply editions_advance_refl|].
  destruct (falsy_num _); [destruct (createToken_result chain)|];
    try apply editions_advance_refl;
    destruct (mintToken chain); simpl;
    try apply editions_advance_refl; apply set_token_id_advance.
Qed.

Lemma step_artworks w a :
  editions_advance (deliveries [a]) (artworks w) (artworks (step w a)).
Proof.
  destruct a as [env request|now tok|chain|now]; simpl.
  - apply POST_artworks.
  - unfold GET. destruct (select_download_token tok w) as [[[[id t] p] ar]|];
      [|apply editions_advance_refl].
    destruct (_ <? _); [apply editions_advance_refl|].
    destruct (_ <=? _); apply editions_advance_refl.
  - unfold fire_timer. destruct (timers w) as [|job rest];
      [apply editions_advance_refl|].
    apply (mint_job_artworks_advance chain job (set_timers (fun _ => rest) w)).
  - apply editions_advance_refl.
Qed.

Lemma deliveries_cons a actions :
  deliveries (a :: actions) = deliveries [a] + deliveries actions.
Proof. unfold deliveries. simpl. destruct a; simpl; lia. Qed.

(** Along every run of webhook deliveries, downloads, mint jobs and cache
    sweeps the artworks stay the same ones with the same maximum, no edition
    count goes down, none goes up by more than the number of webhook
    deliveries in the run, and a count within its maximum stays within it. *)
Theorem edition_counts_along_runs (w0 : World) (actions : list Action) :
  editions_advance (deliveries actions) (artworks w0) (artworks (run actions w0)) /\
  (editions_within w0 -> editions_within (run actions w0)).
Proof.
  assert (Hadv : forall acts w,
             editions_advance (deliveries acts) (artworks w) (artworks (run acts w))).
  { unfold run. induction acts as [|a acts IH]; intros w; simpl.
    - apply editions_advance_refl.
    - rewrite deliveries_cons.
      eapply editions_advance_trans; [apply step_artworks|apply IH]. }
  split; [apply Hadv|].
  intros Hw k a' Hk. specialize (Hadv actions w0 k). rewrite Hk in Hadv.
  destruct (artworks w0 !! k) as [a|] eqn:Ha; [|done].
  destruct Hadv as (_ & _ & Hin). apply Hin. by apply (Hw k a).
Qed.

(** ** A failed payment *)

Lemma joined_purchase_fmap w w' (f : Purchase -> Purchase) t :
  (forall p, artwork_id (f p) = artwork_id p) ->
  artworks w' = artworks w ->
  (forall k, purchases w' !! k = f <$> purchases w !! k) ->
  joined_purchase w' t = (fun pa => (f (fst pa), snd pa)) <$> joined_purchase w t.
Proof.
  intros Hf Ha Hp. unfold joined_purchase. rewrite Hp, Ha.
  destruct (purchases w !! purchase_id t) as [p|]; simpl; [|done].
  rewrite Hf. by destruct (artworks w !! artwork_id p).
Qed.

(** The answer of the download endpoint depends on the purchases only
    through which artwork each one is of. *)
Lemma GET_response_purchases now tok w w' (f : Purchase -> Purchase) :
  (forall p, artwork_id (f p) = artwork_id p) ->
  download_tokens w' = download_tokens w ->
  artworks w' = artworks w ->
  (forall k, purchases w' !! k = f <$> purchases w !! k) ->
  fst (GET now tok w') = fst (GET now tok w).
Proof.
  intros Hf Ht Ha Hp.
  assert (Hsel : select_download_token tok w' =
                 (fun x => (fst (fst (fst x)), snd (fst (fst x)), f (snd (fst x)), snd x))
                   <$> select_download_token tok w).
  { unfold select_download_token, select. rewrite Ht.
    rewrite (filter_ext
               (fun kv => String.eqb (token (snd kv)) tok
                          && bool_decide (is_Some (joined_purchase w' (snd kv))))
               (fun kv => String.eqb (token (snd kv)) tok
                          && bool_decide (is_Some (joined_purchase w (snd kv))))).
    2: { intros [k t]. simpl. f_equal. apply bool_decide_ext.
         rewrite (joined_purchase_fmap w w' f t Hf Ha Hp).
         by rewrite fmap_is_Some. }
    destruct (single _) as [[id t]|]; [|done].
    rewrite (joined_purchase_fmap w w' f t Hf Ha Hp).
    by destruct (joined_purchase w t) as [[p a]|]. }
  unfold GET. rewrite Hsel.
  destruct (select_download_token tok w) as [[[[id t] p] a]|]; simpl; [|done].
  destruct (_ <? _); [done|]. by destruct (_ <=? _).
Qed.

(** A verified payment_intent.payment_failed event under a key the ledger
    does not hold is answered with received = true; unless the update
    reports an error, every purchase of that payment intent gets the status
    failed and keeps all its other fields; no other purchase, no token, no
    artwork, no mail and no mint job changes.  No download is revoked: the
    download endpoint answers every request as it did before the event. *)
Theorem failed_payment_keeps_downloads (env : Env) (request : NextRequest) (w : World)
    (event : Event) (intent : string) :
  constructEvent (body request) (stripe_signature request) = Some event ->
  object event = payment_intent_payment_failed intent ->
  ledger_lookup (eventKey request event) w = None ->
  let w' := snd (POST env request w) in
  fst (POST env request w) = json_result ok_result /\
  (forall k, purchases w' !! k = mark_failed env intent <$> purchases w !! k) /\
  (forall p,
     let p' := mark_failed env intent p in
     (purchases_update_error env = false -> stripe_payment_intent_id p = intent ->
      payment_status p' = failed) /\
     (stripe_payment_intent_id p <> intent -> p' = p) /\
     artwork_id p' = artwork_id p /\ buyer_email p' = buyer_email p /\
     buyer_wallet_address p' = buyer_wallet_address p /\
     stripe_payment_intent_id p' = stripe_payment_intent_id p /\
     stripe_session_id p' = stripe_session_id p /\
     amount_paid_cents p' = amount_paid_cents p /\
     nft_minted p' = nft_minted p /\ nft_token_id p' = nft_token_id p /\
     nft_tx_hash p' = nft_tx_hash p /\ download_sent p' = download_sent p) /\
  download_tokens w' = download_tokens w /\ artworks w' = artworks w /\
  sent_mail w' = sent_mail w /\ timers w' = timers w /\
  (forall now tok, fst (GET now tok w') = fst (GET now tok w)).
Proof.
  intros He Hobj Hl. rewrite (POST_miss _ _ _ _ He Hl).
  unfold processEventWithTransaction. rewrite Hobj. simpl.
  assert (Hp : forall k,
             purchases (markEventProcessed env (eventKey request event) ok_result
                          (if purchases_update_error env then w
                           else set_purchases
                                  (fmap (fun p => if String.eqb (stripe_payment_intent_id p) intent
                                                  then set_payment_status failed p else p)) w))
             !! k = mark_failed env intent <$> purchases w !! k).
  { intros k. unfold markEventProcessed, mark_failed.
    destruct (webhook_events_insert_error env), (purchases_update_error env); simpl;
      rewrite ?lookup_fmap; by destruct (purchases w !! k). }
  assert (Hfields : forall p, artwork_id (mark_failed env intent p) = artwork_id p).
  { intros p. unfold mark_failed. destruct (purchases_update_error env); [done|].
    by destruct (String.eqb _ _). }
  assert (Hrest :
            download_tokens (markEventProcessed env (eventKey request event) ok_result
                          (if purchases_update_error env then w
                           else set_purchases
                                  (fmap (fun p => if String.eqb (stripe_payment_intent_id p) intent
                                                  then set_payment_status failed p else p)) w))
            = download_tokens w /\
            artworks (markEventProcessed env (eventKey request event) ok_result
                          (if purchases_update_error env then w
                           else set_purchases
                                  (fmap (fun p => if String.eqb (stripe_payment_intent_id p) intent
                                                  then set_payment_status failed p else p)) w))
            = artworks w /\
            sent_mail (markEventProcessed env (eventKey request event) ok_result
                          (if purchases_update_error env then w
                           else set_purchases
                                  (fmap (fun p => if String.eqb (stripe_payment_intent_id p) intent
                                                  then set_payment_status failed p else p)) w))
            = sent_mail w /\
            timers (markEventProcessed env (eventKey request event) ok_result
                          (if purchases_update_error env then w
                           else set_purchases
                                  (fmap (fun p => if String.eqb (stripe_payment_intent_id p) intent
                                                  then set_payment_status failed p else p)) w))
            = timers w).
  { unfold markEventProcessed.
    by destruct (webhook_events_insert_error env), (purchases_update_error env). }
  destruct Hrest as (Ht & Ha & Hmail & Htimers).
  split; [done|]. split; [exact Hp|]. split.
  { intros p. unfold mark_failed. split; [|split].
    - intros Hu Hi. apply String.eqb_eq in Hi. by rewrite Hu, Hi.
    - intros Hne. apply String.eqb_neq in Hne. rewrite Hne.
      by destruct (purchases_update_error env).
    - destruct (purchases_update_error env); [done|].
      by destruct (String.eqb (stripe_payment_intent_id p) intent). }
  repeat (split; [done|]).
  intros now tok. by apply (GET_response_purchases now tok w _ (mark_failed env intent)).
Qed.

(** ** The ledger and the cache sweep *)

Lemma process_ledger env event w :
  processedEvents (snd (processEventWithTransaction env event w)) = processedEvents w /\
  webhook_events (snd (processEventWithTransaction env event w)) = webhook_events w.
Proof.
  unfold processEventWithTransaction.
  destruct (object event) as [session|intent|ty];
    [|by destruct (purchases_update_error env)|done].
  destruct (_ || _); [done|]. destruct (single _); [done|].
  destruct (purchases_insert _ _ _ _) as [m|[pid w1]] eqn:Hins; [done|].
  apply purchases_insert_inr in Hins as (intent & _ & _ & -> & _).
  rewrite rpc_increment_cases.
  destruct (increment_rpc_error env); [done|].
  match goal with
  | |- context [download_tokens_insert ?e ?i ?t ?x ?k ?v] =>
      destruct (download_tokens_insert_cases e i t x k v) as [[m Hd]|[Hd _]];
      rewrite Hd
  end.
  { done. }
  destruct (select_artwork _ _) as [[artwork artist]|]; [|done].
  match goal with
  | |- context [send_download_email ?t ?ps ?v] =>
      destruct (send_download_email_mail t ps v) as [mails Hmail];
      destruct (send_download_email t ps v) as [emailSent w4]
  end.
  simpl in Hmail. subst w4.
  by destruct emailSent, (truthy_str _).
Qed.

Lemma ledger_lookup_durable key w row :
  List.filter (fun r => String.eqb (event_id r) key) (webhook_events w) = [row] ->
  exists r, ledger_lookup key w = Some r /\
            (processedEvents w !! key = None -> r = result row).
Proof.
  intros Hrow. unfold ledger_lookup.
  destruct (processedEvents w !! key) as [c|]; [by eexists|].
  rewrite Hrow. by eexists.
Qed.

Lemma cleanup_lookup now w key :
  processedEvents (cleanup now w) !! key =
  match processedEvents w !! key with
  | Some c => if bool_decide (now - fst c > CACHE_TTL) then None else Some c
  | None => None
  end.
Proof.
  unfold cleanup. simpl.
  destruct (processedEvents w !! key) as [c|] eqn:Hc.
  - case_bool_decide as Hold.
    + apply map_lookup_filter_None. right. intros c' Hc' HP.
      rewrite Hc in Hc'. injection Hc' as <-. simpl in HP. by apply HP.
    + apply map_lookup_filter_Some. split; [done|]. simpl. done.
  - apply map_lookup_filter_None. by left.
Qed.

(** The world after the first delivery of an event under a key the ledger
    had neither in its cache nor in its table. *)
Lemma POST_first_delivery env request w event :
  constructEvent (body request) (stripe_signature request) = Some event ->
  processedEvents w !! eventKey request event = None ->
  List.filter (fun r => String.eqb (event_id r) (eventKey request event))
    (webhook_events w) = [] ->
  exists r,
    fst (POST env request w) = json_result r /\
    processedEvents (snd (POST env request w)) !! eventKey request event =
      Some (clock env, r) /\
    List.filter (fun row => String.eqb (event_id row) (eventKey request event))
      (webhook_events (snd (POST env request w))) =
      if webhook_events_insert_error env then []
      else [{| event_id := eventKey request event; result := r;
               processed_at := clock env |}].
Proof.
  intros He Hc Hrows.
  assert (Hl : ledger_lookup (eventKey request event) w = None).
  { unfold ledger_lookup. by rewrite Hc, Hrows. }
  rewrite (POST_miss _ _ _ _ He Hl). simpl.
  destruct (process_ledger env event w) as [_ Hwe].
  destruct (processEventWithTransaction env event w) as [r w2]. simpl in *.
  exists r. split; [done|]. split; [apply markEventProcessed_cached|].
  unfold markEventProcessed. destruct (webhook_events_insert_error env); simpl.
  - by rewrite Hwe.
  - rewrite List.filter_app, Hwe, Hrows. simpl. by rewrite String.eqb_refl.
Qed.

(** After the first delivery of an event whose result reached the
    webhook_events table, a redelivery is answered with the first answer
    and changes no purchase, token, edition count, mail or mint job,
    however long after and whatever the cache sweep removed in between. *)
Theorem redelivery_after_sweep (env env' : Env) (request : NextRequest) (w : World)
    (event : Event) (now : Z) :
  constructEvent (body request) (stripe_signature request) = Some event ->
  processedEvents w !! eventKey request event = None ->
  List.filter (fun r => String.eqb (event_id r) (eventKey request event))
    (webhook_events w) = [] ->
  webhook_events_insert_error env = false ->
  let swept := cleanup now (snd (POST env request w)) in
  fst (POST env' request swept) = fst (POST env request w) /\
  same_fulfilment swept (snd (POST env' request swept)) /\
  same_fulfilment (snd (POST env request w)) swept.
Proof.
  intros He Hc Hrows Hins.
  destruct (POST_first_delivery env request w event He Hc Hrows)
    as (r & Hans & Hcache & Hrow).
  rewrite Hins in Hrow. simpl.
  assert (Hl : ledger_lookup (eventKey request event)
                 (cleanup now (snd (POST env request w))) = Some r).
  { unfold ledger_lookup. rewrite cleanup_lookup, Hcache. simpl.
    case_bool_decide; [|done]. simpl.
    change (webhook_events (cleanup now (snd (POST env request w))))
      with (webhook_events (snd (POST env request w))).
    by rewrite Hrow. }
  rewrite (POST_hit _ _ _ _ _ He Hl), Hans. simpl.
  split; [done|]. split; [apply checkProcessedEvent_same|by repeat split].
Qed.

(** When the insert into webhook_events failed, the result of the first
    delivery lives in the cache only: the ledger holds it as long as the
    sweep finds the entry no older than 24 hours, and has forgotten the key
    after a later sweep, so that a redelivery is processed anew. *)
Theorem ledger_forgets_without_durable_row (env : Env) (request : NextRequest)
    (w : World) (event : Event) (now : Z) :
  constructEvent (body request) (stripe_signature request) = Some event ->
  processedEvents w !! eventKey request event = None ->
  List.filter (fun r => String.eqb (event_id r) (eventKey request event))
    (webhook_events w) = [] ->
  webhook_events_insert_error env = true ->
  let swept := cleanup now (snd (POST env request w)) in
  (now - clock env <= CACHE_TTL ->
   json_result <$> ledger_lookup (eventKey request event) swept =
     Some (fst (POST env request w))) /\
  (now - clock env > CACHE_TTL ->
   ledger_lookup (eventKey request event) swept = None /\
   forall env',
     POST env' request swept =
       (json_result (fst (processEventWithTransaction env' event swept)),
        markEventProcessed env' (eventKey request event)
          (fst (processEventWithTransaction env' event swept))
          (snd (processEventWithTransaction env' event swept)))).
Proof.
  intros He Hc Hrows Hins.
  destruct (POST_first_delivery env request w event He Hc Hrows)
    as (r & Hans & Hcache & Hrow).
  rewrite Hins in Hrow. simpl.
  assert (Hl : ledger_lookup (eventKey request event)
                 (cleanup now (snd (POST env request w))) =
               if bool_decide (now - clock env > CACHE_TTL) then None else Some r).
  { unfold ledger_lookup. rewrite cleanup_lookup, Hcache. simpl.
    case_bool_decide; [|done]. simpl.
    change (webhook_events (cleanup now (snd (POST env request w))))
      with (webhook_events (snd (POST env request w))).
    by rewrite Hrow. }
  split.
  - intros Hyoung. rewrite Hl, bool_decide_eq_false_2 by lia. simpl. by rewrite Hans.
  - intros Hold. rewrite bool_decide_eq_true_2 in Hl by lia. split; [done|].
    intros env'. by apply POST_miss.
Qed.

(** ** How many downloads a token gives *)

Lemma downloads_budget times : forall tok w id t p a,
  download_tokens w !! id = Some t -> token t = tok ->
  (forall id' t', download_tokens w !! id' = Some t' -> token t' = tok -> id' = id) ->
  purchases w !! purchase_id t = Some p -> artworks w !! artwork_id p = Some a ->
  download_count t <= max_downloads t ->
  exists t',
    download_tokens (snd (downloads times tok w)) !! id = Some t' /\
    download_count t' = download_count t + Z.of_nat (fst (downloads times tok w)) /\
    download_count t' <= max_downloads t /\
    max_downloads t' = max_downloads t /\ expires_at t' = expires_at t.
Proof.
  induction times as [|now times IH]; intros tok w id t p a Hk Htok Huniq Hp Ha Hle.
  - exists t. simpl. repeat split; try done; lia.
  - simpl.
    pose proof (select_download_token_known _ _ _ _ _ _ Hk Htok Huniq Hp Ha) as Hs.
    pose proof (GET_resolved now _ _ _ _ _ _ Hs) as Hget.
    destruct (expires_at t <? now).
    { rewrite Hget.
      destruct (IH tok w id t p a Hk Htok Huniq Hp Ha Hle) as (t' & H1 & H2 & H3 & H4).
      destruct (downloads times tok w) as [n w2]. simpl in *. by exists t'. }
    destruct (max_downloads t <=? download_count t) eqn:Hc.
    { rewrite Hget.
      destruct (IH tok w id t p a Hk Htok Huniq Hp Ha Hle) as (t' & H1 & H2 & H3 & H4).
      destruct (downloads times tok w) as [n w2]. simpl in *. by exists t'. }
    apply Z.leb_gt in Hc. rewrite Hget.
    destruct (IH tok (set_download_tokens (insert id (redeemed now t)) w) id
                (redeemed now t) p a) as (t' & H1 & H2 & H3 & H4 & H5).
    + simpl. apply lookup_insert_eq.
    + done.
    + intros id' t'. simpl. destruct (decide (id' = id)) as [->|Hne]; [done|].
      rewrite lookup_insert_ne by done. apply Huniq.
    + done.
    + done.
    + simpl. lia.
    + destruct (downloads times tok _) as [n w2]. simpl in *.
      exists t'. repeat split; try done; lia.
Qed.

(** Whatever the times of the requests, the downloads with a token are
    answered with the redirect at most as often as the token's row has
    downloads left; the count stored in the row is the count before plus the
    number of redirects, and never more than the limit. *)
Theorem downloads_never_exceed_the_remaining (times : list Z) (tok : string) (w : World)
    (id : Z) (t : DownloadToken) (p : Purchase) (a : Artwork) :
  download_tokens w !! id = Some t -> token t = tok ->
  (forall id' t', download_tokens w !! id' = Some t' -> token t' = tok -> id' = id) ->
  purchases w !! purchase_id t = Some p -> artworks w !! artwork_id p = Some a ->
  download_count t <= max_downloads t ->
  Z.of_nat (fst (downloads times tok w)) <= max_downloads t - download_count t /\
  exists t',
    download_tokens (snd (downloads times tok w)) !! id = Some t' /\
    download_count t' = download_count t + Z.of_nat (fst (downloads times tok w)).
Proof.
  intros Hk Htok Huniq Hp Ha Hle.
  destruct (downloads_budget times tok w id t p a Hk Htok Huniq Hp Ha Hle)
    as (t' & H1 & H2 & H3 & _).
  split; [lia|]. by exists t'.
Qed.

(** Requests made no later than the expiry are answered with the redirect
    until the row's downloads are used up: of [n] such requests with a
    token that has [r] downloads left, the first [min n r] are granted. *)
Theorem downloads_in_time_are_granted (times : list Z) : forall (tok : string)
    (w : World) (id : Z) (t : DownloadToken) (p : Purchase) (a : Artwork),
  download_tokens w !! id = Some t -> token t = tok ->
  (forall id' t', download_tokens w !! id' = Some t' -> token t' = tok -> id' = id) ->
  purchases w !! purchase_id t = Some p -> artworks w !! artwork_id p = Some a ->
  download_count t <= max_downloads t ->
  Forall (fun now => now <= expires_at t) times ->
  Z.of_nat (fst (downloads times tok w)) =
    Z.min (Z.of_nat (length times)) (max_downloads t - download_count t).
Proof.
  induction times as [|now times IH];
    intros tok w id t p a Hk Htok Huniq Hp Ha Hle Htimes.
  - simpl. lia.
  - apply Forall_cons in Htimes as [Hnow Htimes]. simpl.
    pose proof (select_download_token_known _ _ _ _ _ _ Hk Htok Huniq Hp Ha) as Hs.
    rewrite (GET_resolved now _ _ _ _ _ _ Hs).
    rewrite (proj2 (Z.ltb_ge _ _) Hnow).
    destruct (max_downloads t <=? download_count t) eqn:Hc.
    + apply Z.leb_le in Hc.
      specialize (IH tok w id t p a Hk Htok Huniq Hp Ha Hle Htimes).
      destruct (downloads times tok w) as [n w2]. simpl in *. lia.
    + apply Z.leb_gt in Hc.
      specialize (IH tok (set_download_tokens (insert id (redeemed now t)) w) id
                    (redeemed now t) p a).
      destruct (downloads times tok _) as [n w2]. simpl in *.
      rewrite Nat2Z.inj_succ, IH; [lia|apply lookup_insert_eq|done| |done|done|lia|done].
      intros id' t'. destruct (decide (id' = id)) as [->|Hne]; [done|].
      rewrite lookup_insert_ne by done. apply Huniq.
Qed.

(** ** The gas estimate when the provider gives no price *)

(** When the gas estimation or the fee data throws, the mint is estimated
    at 500000 gas and 10 gwei; when the fee data carries no gas price, or
    zero, the price is 10 gwei as well.  In all these cases the price is
    within the ceiling, so the mint is never refused for its gas price: the
    transaction is sent with the gas limit and the fees of the estimate,
    unless the sending itself throws. *)
Theorem mint_without_price_is_sent (chain : Chain) :
  (estimateGas chain = None \/ getFeeData chain = None \/
   exists feeData, getFeeData chain = Some feeData /\
                   or_num (fee_gasPrice feeData) 0 = 0) ->
  let gasEstimate := estimateGasWithBuffer chain in
  let overrides := {| gasLimit := estimatedGas gasEstimate;
                      tx_maxFeePerGas := maxFeePerGas gasEstimate;
                      tx_maxPriorityFeePerGas := maxPriorityFeePerGas gasEstimate |} in
  gasPrice gasEstimate = gwei 10 /\
  ((estimateGas chain = None \/ getFeeData chain = None) ->
   estimatedGas gasEstimate = 500000 /\ maxFeePerGas gasEstimate = gwei 10 /\
   maxPriorityFeePerGas gasEstimate = gwei 1) /\
  (forall price, fst (mintNFTWithGasEstimation chain) <> inl (GasPriceTooHigh price)) /\
  (forall hash, send_mintToken chain overrides = inr hash ->
                snd (mintNFTWithGasEstimation chain) = [overrides]) /\
  (forall message, send_mintToken chain overrides = inl message ->
                   mintNFTWithGasEstimation chain = (inl (ChainError message), [])).
Proof.
  intros Hno gasEstimate overrides.
  assert (Hprice : gasPrice gasEstimate = gwei 10).
  { unfold gasEstimate, estimateGasWithBuffer.
    destruct (estimateGas chain) as [gas|]; [|done].
    destruct (getFeeData chain) as [feeData|] eqn:Hf; [|done].
    destruct Hno as [?|[?|(fd & [= <-] & Hz)]]; try done. simpl.
    unfold or_num in *. destruct (fee_gasPrice feeData) as [v|]; [|done].
    destruct (v =? 0) eqn:Hv; [done|]. apply Z.eqb_neq in Hv. lia. }
  assert (Hle : gasPrice gasEstimate <= MAX_GAS_PRICE) by (by rewrite Hprice).
  destruct (gas_check_outcomes chain) as (Hwithin & Honly & _).
  destruct (Hwithin Hle) as [Hc Hsent]. fold gasEstimate overrides in Hc, Hsent.
  split; [done|]. split; [|split; [|split]].
  - unfold gasEstimate, estimateGasWithBuffer. intros [->| ->]; [done|].
    by destruct (estimateGas chain).
  - intros price Hthrown. apply Honly in Hthrown as (_ & Hgt & _).
    fold gasEstimate in Hgt. lia.
  - intros hash Hsend. by rewrite Hsent, Hsend.
  - intros message Hsend. unfold mintNFTWithGasEstimation. fold gasEstimate.
    by rewrite Hc, Hsend.
Qed.

(** ** A mint that is confirmed on the chain *)

(** What the monitor reports for a transaction that was sent: failed when
    waiting for it throws or its receipt has another status than 1, with the
    thrown message or, for status 0, "Transaction reverted" as the error. *)
Lemma monitorTransaction_failed chain hash :
  tx_status (monitorTransaction chain hash) = tx_failed <->
  (exists message, waitForTransaction chain hash = inl message) \/
  (exists receipt, waitForTransaction chain hash = inr (Some receipt) /\
                   receipt_status receipt <> Some 1).
Proof.
  unfold monitorTransaction.
  destruct (waitForTransaction chain hash) as [message|[receipt|]]; simpl.
  - split; [|done]. intros _. left. by exists message.
  - case_bool_decide as Hs; split; try done.
    + intros [[? [=]]|(r & [= <-] & Hne)]. done.
    + intros _. right. by exists receipt.
  - split; [done|]. by intros [[? [=]]|(? & [=] & _)].
Qed.

(** A mint whose transaction is sent, mined without a revert and confirmed
    still throws: building the result calls [mul] on the bigint
    [receipt.gasUsed].  The job that called it stores this TypeError in
    nft_minting_errors and leaves the purchase without its NFT fields, though
    the token was minted on the chain. *)
Theorem confirmed_mint_is_recorded_as_an_error (chain : Chain) (params : MintJob)
    (w : World) (overrides : Overrides) (hash : string)
    (mined receipt : TransactionReceipt) :
  getContractService_error chain = None ->
  falsy_num (token_id (job_artwork params)) = false ->
  checkGasPrice (estimateGasWithBuffer chain) = inr overrides ->
  send_mintToken chain overrides = inr hash ->
  waitForTransaction chain hash = inr (Some mined) ->
  receipt_status mined = Some 1 ->
  tx_wait chain hash = inr receipt ->
  let e := TypeError "receipt.gasUsed.mul is not a function" in
  let w' := mint_job chain params w in
  tx_status (monitorTransaction chain hash) = tx_confirmed /\
  mintNFTWithGasEstimation chain = (inl e, [overrides]) /\
  nft_minting_errors w' = (nft_minting_errors w ++ [minting_error_row params e])%list /\
  purchases w' = purchases w /\ artworks w' = artworks w.
Proof.
  intros Hsvc Htok Hc Hsend Hmined Hstatus Hwait e w'.
  assert (Hmon : tx_status (monitorTransaction chain hash) = tx_confirmed).
  { unfold monitorTransaction. rewrite Hmined. simpl.
    by rewrite bool_decide_eq_true_2. }
  assert (Hm : mintNFTWithGasEstimation chain = (inl e, [overrides])).
  { unfold mintNFTWithGasEstimation. by rewrite Hc, Hsend, Hmon, Hwait. }
  split; [done|]. split; [done|].
  subst w'. unfold mint_job, mintToken. by rewrite Hsvc, Htok, Hm.
Qed.

(** A transaction that was sent and then reverted, or whose monitoring
    threw, ends the mint with the "Transaction failed" error that carries the
    monitor's message; the confirmations are not awaited. *)
Theorem failed_transaction_is_thrown (chain : Chain) (overrides : Overrides)
    (hash : string) :
  checkGasPrice (estimateGasWithBuffer chain) = inr overrides ->
  send_mintToken chain overrides = inr hash ->
  (forall mined, waitForTransaction chain hash = inr (Some mined) ->
                 receipt_status mined = Some 0 ->
     mintNFTWithGasEstimation chain =
       (inl (TransactionFailed (Some "Transaction reverted")), [overrides])) /\
  (forall message, waitForTransaction chain hash = inl message ->
     mintNFTWithGasEstimation chain =
       (inl (TransactionFailed (Some message)), [overrides])) /\
  (waitForTransaction chain hash = inr None ->
   forall message, tx_wait chain hash = inl message ->
     mintNFTWithGasEstimation chain = (inl (ChainError message), [overrides])).
Proof.
  intros Hc Hsend. unfold mintNFTWithGasEstimation. rewrite Hc, Hsend.
  unfold monitorTransaction. split; [|split].
  - intros mined -> Hs. simpl. by rewrite Hs.
  - by intros message ->.
  - intros -> message ->. done.
Qed.

(** ** What a mint job does to the artworks *)

(** A mint job whose queued artwork has a token id calls no token creation
    and leaves the artworks as they are; so does a job whose contract
    service or token creation throws.  When the token creation returns an
    id, the artwork of the job gets that id, although the mint that follows
    throws, and no other artwork changes.  No job touches a token
    row, a mail or the ledger. *)
Theorem mint_job_token_creation (chain : Chain) (params : MintJob) (w : World) :
  let w' := mint_job chain params w in
  (falsy_num (token_id (job_artwork params)) = false -> artworks w' = artworks w) /\
  (forall message, getContractService_error chain = Some message ->
                   artworks w' = artworks w) /\
  (forall e, createToken_result chain = inl e -> artworks w' = artworks w) /\
  (forall tokenId,
     getContractService_error chain = None ->
     falsy_num (token_id (job_artwork params)) = true ->
     createToken_result chain = inr tokenId ->
     artworks w' = alter (set_token_id tokenId) (artworkId params) (artworks w) /\
     (forall a, artworks w !! artworkId params = Some a ->
                exists a', artworks w' !! artworkId params = Some a' /\
                           token_id a' = Some tokenId /\
                           current_editions a' = current_editions a /\
                           max_editions a' = max_editions a /\
                           artist_id a' = artist_id a) /\
     (forall k, k <> artworkId params -> artworks w' !! k = artworks w !! k)) /\
  download_tokens w' = download_tokens w /\ sent_mail w' = sent_mail w /\
  processedEvents w' = processedEvents w /\ webhook_events w' = webhook_events w /\
  timers w' = timers w.
Proof.
  unfold mint_job. repeat split.
  - intros ->. destruct (getContractService_error chain); [done|].
    by destruct (mintToken chain).
  - by intros message ->.
  - intros e ->. destruct (getContractService_error chain); [done|].
    destruct (falsy_num _); [done|]. by destruct (mintToken chain).
  - rewrite H, H0, H1. by destruct (mintToken chain).
  - intros a Ha. rewrite H, H0, H1.
    exists (set_token_id tokenId a).
    destruct (mintToken chain); simpl; by rewrite lookup_alter_eq, Ha.
  - intros k Hne. rewrite H, H0, H1.
    destruct (mintToken chain); simpl; by rewrite lookup_alter_ne.
  - destruct (getContractService_error chain); [done|].
    destruct (falsy_num _); [destruct (createToken_result chain)|];
      try done; by destruct (mintToken chain).
  - destruct (getContractService_error chain); [done|].
    destruct (falsy_num _); [destruct (createToken_result chain)|];
      try done; by destruct (mintToken chain).
  - destruct (getContractService_error chain); [done|].
    destruct (falsy_num _); [destruct (createToken_result chain)|];
      try done; by destruct (mintToken chain).
  - destruct (getContractService_error chain); [done|].
    destruct (falsy_num _); [destruct (createToken_result chain)|];
      try done; by destruct (mintToken chain).
  - destruct (getContractService_error chain); [done|].
    destruct (falsy_num _); [destruct (createToken_result chain)|];
      try done; by destruct (mintToken chain).
Qed.

End Webhook.

(** ** The token contract *)

Lemma uint256_max_pos : 1 < ImNotArtNFT.uint256_max.
Proof. reflexivity. Qed.

Lemma constructor_consistent initialOwner st :
  ImNotArtNFT.constructor initialOwner = inr st -> ImNotArtNFT.consistent st.
Proof.
  unfold ImNotArtNFT.constructor. destruct (initialOwner =? 0); [done|].
  intros [= <-]. pose proof uint256_max_pos. split; [simpl; lia|]. split.
  - intros tokenId. simpl. rewrite lookup_empty. split; [by intros [? ?]|lia].
  - intros tokenId token. simpl. by rewrite lookup_empty.
Qed.

Lemma exec_consistent st c :
  ImNotArtNFT.well_typed c -> ImNotArtNFT.consistent st ->
  ImNotArtNFT.consistent (ImNotArtNFT.exec st c).
Proof.
  intros Hc (Hcounter & Hdom & Hrows).
  destruct c as [sender artist_ maxSupply_ uri_|accepts sender tokenId buyer amount
                |sender newOwner|sender]; simpl.
  - unfold ImNotArtNFT.createToken.
    destruct (negb _); [done|].
    destruct (ImNotArtNFT.uint256_max <=? _) eqn:Hmax; [done|].
    apply Z.leb_gt in Hmax. simpl in Hc. split; [simpl; lia|]. split.
    + intros tokenId. simpl.
      destruct (decide (tokenId = ImNotArtNFT._tokenIdCounter st)) as [->|Hne].
      * rewrite lookup_insert_eq. split; [lia|by eexists].
      * rewrite lookup_insert_ne by done. rewrite Hdom. lia.
    + intros tokenId token. simpl.
      destruct (decide (tokenId = ImNotArtNFT._tokenIdCounter st)) as [->|Hne].
      * rewrite lookup_insert_eq. intros [= <-]. simpl. lia.
      * rewrite lookup_insert_ne by done. apply Hrows.
  - unfold ImNotArtNFT.mintToken, ImNotArtNFT.token_at.
    destruct (negb _); [done|].
    destruct (ImNotArtNFT.tokenInfo st !! tokenId) as [token|] eqn:Ht;
      simpl; [|done].
    destruct (ImNotArtNFT.artist token =? 0); [done|].
    destruct (ImNotArtNFT.uint256_max <? _); [done|].
    destruct (ImNotArtNFT.maxSupply token <? _) eqn:Hsup; [done|].
    destruct (buyer =? 0); [done|].
    destruct (ImNotArtNFT.uint256_max <? _); [done|].
    destruct (negb accepts); [done|].
    apply Z.ltb_ge in Hsup. destruct Hc as [_ Hamount].
    pose proof (Hrows _ _ Ht) as (Hs & Hm & Hr).
    split; [done|]. split.
    + intros k. simpl. destruct (decide (k = tokenId)) as [->|Hne].
      * rewrite lookup_insert_eq. rewrite <- Hdom, Ht. split; by eexists.
      * by rewrite lookup_insert_ne.
    + intros k token'. simpl. destruct (decide (k = tokenId)) as [->|Hne].
      * rewrite lookup_insert_eq. intros [= <-]. simpl. lia.
      * rewrite lookup_insert_ne by done. apply Hrows.
  - unfold ImNotArtNFT.transferOwnership.
    destruct (negb _); [done|]. by destruct (newOwner =? 0).
  - unfold ImNotArtNFT.renounceOwnership. by destruct (negb _).
Qed.

Lemma execs_consistent calls : forall st,
  Forall ImNotArtNFT.well_typed calls -> ImNotArtNFT.consistent st ->
  ImNotArtNFT.consistent (ImNotArtNFT.execs calls st).
Proof.
  unfold ImNotArtNFT.execs.
  induction calls as [|c calls IH]; intros st Hcalls Hst; [done|].
  inversion Hcalls; subst. simpl. apply IH; [done|]. by apply exec_consistent.
Qed.

(** After the constructor and any calls, the token ids in use are those
    from 1 up to the counter, every supply is within its maximum and every
    royalty is 10%; and a token that is created then takes the id of the
    counter, which no token has, leaves every other token as it is and was
    created by the owner. *)
Theorem contract_state_stays_consistent (initialOwner : Z) (st0 : ImNotArtNFT.State)
    (calls : list ImNotArtNFT.Call) :
  ImNotArtNFT.constructor initialOwner = inr st0 ->
  Forall ImNotArtNFT.well_typed calls ->
  let st := ImNotArtNFT.execs calls st0 in
  ImNotArtNFT.consistent st /\
  forall sender artist_ maxSupply_ metadataURI_ tokenId st',
    ImNotArtNFT.createToken sender artist_ maxSupply_ metadataURI_ st =
      inr (tokenId, st') ->
    sender = ImNotArtNFT.owner st /\
    tokenId = ImNotArtNFT._tokenIdCounter st /\
    ImNotArtNFT.tokenInfo st !! tokenId = None /\
    ImNotArtNFT._tokenIdCounter st' = tokenId + 1 /\
    (forall k, k <> tokenId ->
               ImNotArtNFT.tokenInfo st' !! k = ImNotArtNFT.tokenInfo st !! k) /\
    ImNotArtNFT.balanceOf st' = ImNotArtNFT.balanceOf st.
Proof.
  intros Hctor Hcalls st.
  assert (Hst : ImNotArtNFT.consistent st).
  { apply execs_consistent; [done|]. by eapply constructor_consistent. }
  split; [done|].
  intros sender artist_ maxSupply_ metadataURI_ tokenId st'.
  unfold ImNotArtNFT.createToken.
  destruct (sender =? ImNotArtNFT.owner st) eqn:Hs; [|done]. simpl.
  destruct (ImNotArtNFT.uint256_max <=? _); [done|].
  intros [= <- <-]. apply Z.eqb_eq in Hs. simpl.
  destruct Hst as (_ & Hdom & _).
  repeat split; try done.
  - destruct (ImNotArtNFT.tokenInfo st !! ImNotArtNFT._tokenIdCounter st) eqn:Hk;
      [|done].
    assert (Hin : is_Some (ImNotArtNFT.tokenInfo st !! ImNotArtNFT._tokenIdCounter st))
      by (by eexists).
    apply Hdom in Hin. lia.
  - intros k Hne. by rewrite lookup_insert_ne.
Qed.

Lemma exec_keeps_zero_artist st c tokenId token :
  ImNotArtNFT.tokenInfo st !! tokenId = Some token ->
  ImNotArtNFT.artist token = 0 ->
  tokenId < ImNotArtNFT._tokenIdCounter st ->
  ImNotArtNFT.tokenInfo (ImNotArtNFT.exec st c) !! tokenId = Some token /\
  tokenId < ImNotArtNFT._tokenIdCounter (ImNotArtNFT.exec st c).
Proof.
  intros Ht Ha Hlt.
  destruct c as [sender artist_ maxSupply_ uri_|accepts sender k buyer amount
                |sender newOwner|sender]; simpl.
  - unfold ImNotArtNFT.createToken.
    destruct (negb _); [done|].
    destruct (ImNotArtNFT.uint256_max <=? _); [done|]. simpl.
    rewrite lookup_insert_ne by lia. split; [done|lia].
  - unfold ImNotArtNFT.mintToken, ImNotArtNFT.token_at.
    destruct (negb _); [done|].
    destruct (decide (k = tokenId)) as [->|Hne].
    + rewrite Ht. simpl. by rewrite Ha.
    + destruct (ImNotArtNFT.artist _ =? 0); [done|].
      destruct (ImNotArtNFT.uint256_max <? _); [done|].
      destruct (ImNotArtNFT.maxSupply _ <? _); [done|].
      destruct (buyer =? 0); [done|].
      destruct (ImNotArtNFT.uint256_max <? _); [done|].
      destruct (negb accepts); [done|]. simpl.
      by rewrite lookup_insert_ne.
  - unfold ImNotArtNFT.transferOwnership.
    destruct (negb _); [done|]. by destruct (newOwner =? 0).
  - unfold ImNotArtNFT.renounceOwnership. by destruct (negb _).
Qed.

Lemma execs_keep_zero_artist calls : forall st tokenId token,
  ImNotArtNFT.tokenInfo st !! tokenId = Some token ->
  ImNotArtNFT.artist token = 0 ->
  tokenId < ImNotArtNFT._tokenIdCounter st ->
  ImNotArtNFT.tokenInfo (ImNotArtNFT.execs calls st) !! tokenId = Some token.
Proof.
  unfold ImNotArtNFT.execs.
  induction calls as [|c calls IH]; intros st tokenId token Ht Ha Hlt; [done|].
  simpl. destruct (exec_keeps_zero_artist st c tokenId token Ht Ha Hlt).
  by apply IH.
Qed.

(** [createToken] accepts the zero address as the artist; the token it
    creates then counts as not existing, for good: whatever calls follow,
    every mint of it by the owner reverts with "Token does not exist", and
    so do [uri] and [getRoyaltyInfo], while [getTokenInfo] shows the row with
    its maximum supply and nothing minted. *)
Theorem token_of_the_zero_address_is_never_minted (sender maxSupply_ : Z)
    (metadataURI_ : string) (st st' : ImNotArtNFT.State) (tokenId : Z)
    (calls : list ImNotArtNFT.Call) :
  ImNotArtNFT.createToken sender 0 maxSupply_ metadataURI_ st = inr (tokenId, st') ->
  let later := ImNotArtNFT.execs calls st' in
  ImNotArtNFT.getTokenInfo tokenId later =
    {| ImNotArtNFT.artist := 0; ImNotArtNFT.maxSupply := maxSupply_;
       ImNotArtNFT.currentSupply := 0; ImNotArtNFT.royaltyPercentage := 1000;
       ImNotArtNFT.metadataURI := metadataURI_ |} /\
  (forall accepts buyer amount,
     ImNotArtNFT.mintToken accepts (ImNotArtNFT.owner later) tokenId buyer amount later =
       inl ImNotArtNFT.Token_does_not_exist) /\
  (forall accepts caller buyer amount,
     exists reason,
       ImNotArtNFT.mintToken accepts caller tokenId buyer amount later = inl reason) /\
  ImNotArtNFT.uri tokenId later = inl ImNotArtNFT.Token_does_not_exist /\
  (forall salePrice,
     ImNotArtNFT.getRoyaltyInfo tokenId salePrice later =
       inl ImNotArtNFT.Token_does_not_exist).
Proof.
  unfold ImNotArtNFT.createToken.
  destruct (negb _); [done|].
  destruct (ImNotArtNFT.uint256_max <=? _); [done|].
  intros Hcreated. injection Hcreated as Hid Hst'.
  subst tokenId st'. set (later := ImNotArtNFT.execs calls _).
  assert (Hrow : ImNotArtNFT.tokenInfo later !! ImNotArtNFT._tokenIdCounter st =
                 Some {| ImNotArtNFT.artist := 0; ImNotArtNFT.maxSupply := maxSupply_;
                         ImNotArtNFT.currentSupply := 0;
                         ImNotArtNFT.royaltyPercentage := 1000;
                         ImNotArtNFT.metadataURI := metadataURI_ |}).
  { apply execs_keep_zero_artist; simpl; [by rewrite lookup_insert_eq|done|lia]. }
  unfold ImNotArtNFT.getTokenInfo, ImNotArtNFT.mintToken, ImNotArtNFT.uri,
    ImNotArtNFT.getRoyaltyInfo, ImNotArtNFT.token_at.
  rewrite Hrow. simpl. repeat split; try done.
  - intros accepts buyer amount. by rewrite Z.eqb_refl.
  - intros accepts caller buyer amount. destruct (negb _); by eexists.
Qed.

(** After the constructor and any calls, the royalty of a token that exists
    is paid to its artist and is a tenth of the sale price, rounded down;
    for a sale price above a thousandth of the largest uint256 the call
    reverts, the product overflowing. *)
Theorem royalty_is_a_tenth_of_the_price (initialOwner : Z) (st0 : ImNotArtNFT.State)
    (calls : list ImNotArtNFT.Call) (tokenId salePrice : Z) :
  ImNotArtNFT.constructor initialOwner = inr st0 ->
  Forall ImNotArtNFT.well_typed calls ->
  0 <= salePrice <= ImNotArtNFT.uint256_max ->
  let st := ImNotArtNFT.execs calls st0 in
  let token := ImNotArtNFT.getTokenInfo tokenId st in
  ImNotArtNFT.getRoyaltyInfo tokenId salePrice st =
    if ImNotArtNFT.artist token =? 0 then inl ImNotArtNFT.Token_does_not_exist
    else if ImNotArtNFT.uint256_max / 1000 <? salePrice then inl ImNotArtNFT.Panic_overflow
    else inr (ImNotArtNFT.artist token, salePrice / 10).
Proof.
  intros Hctor Hcalls Hprice st token.
  assert (Hst : ImNotArtNFT.consistent st).
  { apply execs_consistent; [done|]. by eapply constructor_consistent. }
  unfold ImNotArtNFT.getRoyaltyInfo. fold (ImNotArtNFT.getTokenInfo tokenId st).
  fold token.
  destruct (ImNotArtNFT.artist token =? 0) eqn:Ha; [done|].
  assert (Hr : ImNotArtNFT.royaltyPercentage token = 1000).
  { subst token. unfold ImNotArtNFT.getTokenInfo, ImNotArtNFT.token_at in *.
    destruct (ImNotArtNFT.tokenInfo st !! tokenId) as [row|] eqn:Hrow; [|done].
    simpl. by destruct Hst as (_ & _ & Hrows); destruct (Hrows _ _ Hrow) as (_ & _ & ?). }
  rewrite Hr.
  destruct (ImNotArtNFT.uint256_max / 1000 <? salePrice) eqn:Hover.
  - apply Z.ltb_lt in Hover.
    assert (ImNotArtNFT.uint256_max < salePrice * 1000).
    { pose proof (Z.mul_succ_div_gt ImNotArtNFT.uint256_max 1000 ltac:(lia)). lia. }
    by rewrite (proj2 (Z.ltb_lt _ _)).
  - apply Z.ltb_ge in Hover.
    assert (salePrice * 1000 <= ImNotArtNFT.uint256_max).
    { pose proof (Z.mul_div_le ImNotArtNFT.uint256_max 1000 ltac:(lia)). lia. }
    rewrite (proj2 (Z.ltb_ge _ _)) by done.
    do 2 f_equal. change 10000 with (10 * 1000).
    by rewrite Z.div_mul_cancel_r.
Qed.

(** ** The checkout and the webhook *)

Lemma digit_value_pretty_N_char d :
  (d < 10)%N -> digit_value 10 (pretty_N_char d) = Some (Z.of_N d).
Proof.
  intros Hd.
  assert (d = 0 \/ d = 1 \/ d = 2 \/ d = 3 \/ d = 4 \/ d = 5 \/ d = 6 \/ d = 7
          \/ d = 8 \/ d = 9)%N as Hcases by lia.
  repeat (destruct Hcases as [->|Hcases]; [reflexivity|]). by subst.
Qed.

(** The digits of a positive number start with a digit that is not zero,
    and reading them continues the number read so far. *)
Lemma parse_digits_pretty_N_go (x : N) :
  (0 < x)%N ->
  exists (d : N) (k : Z),
    (0 < d < 10)%N /\ 0 <= k /\
    forall s,
      (exists rest, pretty_N_go x s = String (pretty_N_char d) rest) /\
      forall acc,
        parse_digits 10 (pretty_N_go x s) acc =
        parse_digits 10 s (Some (default 0 acc * 10 ^ k + Z.of_N x)).
Proof.
  induction (N.lt_wf_0 x) as [x _ IH]. intros Hx.
  assert (x < 10 \/ 10 <= x)%N as [Hsmall|Hbig] by lia.
  - exists x, 1. split; [lia|]. split; [lia|]. intros s.
    rewrite pretty_N_go_step by done.
    rewrite (N.div_small x 10), (N.mod_small x 10), pretty_N_go_0 by done.
    split; [by eexists|]. intros acc. simpl.
    rewrite digit_value_pretty_N_char by done. do 2 f_equal. lia.
  - destruct (IH (x `div` 10)%N) as (d & k & Hd & Hk & Hgo).
    { apply N.div_lt; lia. }
    { apply N.div_str_pos. lia. }
    exists d, (k + 1). split; [done|]. split; [lia|]. intros s.
    rewrite pretty_N_go_step by done.
    destruct (Hgo (String (pretty_N_char (x `mod` 10)) s)) as [Hfirst Hparse].
    split; [done|]. intros acc. rewrite Hparse. simpl.
    rewrite digit_value_pretty_N_char by (apply N.mod_lt; lia).
    do 2 f_equal. simpl. rewrite Z.pow_add_r by lia.
    pose proof (N.div_mod x 10 ltac:(lia)) as Hdm.
    apply (f_equal Z.of_N) in Hdm. rewrite N2Z.inj_add, N2Z.inj_mul in Hdm.
    change (Z.of_N 10) with 10 in Hdm. lia.
Qed.

Lemma parseInt_pretty_positive (p : positive) :
  parseInt (pretty (Npos p)) = Some (Zpos p) /\
  exists d rest, (0 < d < 10)%N /\ pretty (Npos p) = String (pretty_N_char d) rest.
Proof.
  destruct (parse_digits_pretty_N_go (Npos p) ltac:(lia)) as (d & k & Hd & Hk & Hgo).
  destruct (Hgo "") as [[rest Hfirst] Hparse].
  assert (Hp : pretty (Npos p) = pretty_N_go (Npos p) "") by done.
  split; [|exists d, rest; by rewrite Hp].
  unfold parseInt. rewrite Hp.
  pose proof (Hparse None) as Hnone. simpl in Hnone.
  rewrite Hfirst in *.
  assert (d = 1 \/ d = 2 \/ d = 3 \/ d = 4 \/ d = 5 \/ d = 6 \/ d = 7
          \/ d = 8 \/ d = 9)%N as Hcases by lia.
  repeat (destruct Hcases as [->|Hcases];
          [simpl in *; cbn in Hnone |- *; by rewrite Hnone|]).
  subst d. simpl in *. cbn in Hnone |- *. by rewrite Hnone.
Qed.

Lemma parseInt_Number_toString (n : Z) : parseInt (Number_toString n) = Some n.
Proof.
  unfold Number_toString. destruct n as [|p|p].
  - reflexivity.
  - change (pretty (Zpos p)) with (pretty (Npos p)).
    apply parseInt_pretty_positive.
  - change (pretty (Zneg p)) with ("-" +:+ pretty (Npos p)).
    destruct (parseInt_pretty_positive p) as [Hparse (d & rest & Hd & Hfirst)].
    unfold parseInt in *. rewrite Hfirst in *.
    assert (d = 1 \/ d = 2 \/ d = 3 \/ d = 4 \/ d = 5 \/ d = 6 \/ d = 7
            \/ d = 8 \/ d = 9)%N as Hcases by lia.
    repeat (destruct Hcases as [->|Hcases];
            [simpl in *; cbn in Hparse |- *;
             destruct (parse_digits 10 _ _); [by injection Hparse as ->|done]|]).
    subst d. simpl in *. cbn in Hparse |- *.
    destruct (parse_digits 10 _ _); [by injection Hparse as ->|done].
Qed.

(** A session that the checkout route asks Stripe to create is for an
    artwork of the table that has editions left, and the webhook accepts its
    metadata: the artwork id it parses is the one of the request, the buyer
    e-mail is the one of the request, and the wallet counts as given exactly
    when the request carried one that is not empty. *)
Theorem checkout_session_is_accepted_by_the_webhook
    (create : SessionParams -> option string) (fields : CheckoutBody) (w : World)
    (params : SessionParams) (session : Session) :
  snd (checkout_POST create (Some fields) w) = [params] ->
  metadata session = Some (params_metadata params) ->
  exists artworkId artwork,
    checkout_artworkId fields = Some artworkId /\ artworkId <> 0 /\
    artworks w !! artworkId = Some artwork /\
    current_editions artwork < max_editions artwork /\
    fst (checkout_POST create (Some fields) w) =
      match create params with
      | Some sessionId => checkout_session sessionId
      | None => checkout_error 500 "Internal server error"
      end /\
    missing_metadata session = false /\
    session_artworkId session = artworkId /\
    Some (session_buyerEmail session) = checkout_buyerEmail fields /\
    truthy_str (session_wallet session) =
      truthy_str (checkout_buyerWalletAddress fields).
Proof.
  unfold checkout_POST.
  destruct (checkout_artworkId fields) as [artworkId|] eqn:Hid; [|done]. simpl.
  destruct (artworkId =? 0) eqn:Hz; [done|]. apply Z.eqb_neq in Hz. simpl.
  destruct (truthy_str (checkout_buyerEmail fields)) eqn:Hmail; [|done]. simpl.
  destruct (artworks w !! artworkId) as [artwork|] eqn:Ha; [|done].
  destruct (max_editions artwork <=? current_editions artwork) eqn:Hsold; [done|].
  apply Z.leb_gt in Hsold.
  set (made := {| product_name := _ |}).
  intros Hcreated Hmeta.
  assert (Hp : params = made) by (by destruct (create made); injection Hcreated).
  subst params. exists artworkId, artwork.
  destruct (checkout_buyerEmail fields) as [email|] eqn:He; [|done].
  assert (Hparsed : parseInt (Number_toString artworkId) = Some artworkId)
    by apply parseInt_Number_toString.
  assert (Hne : String.eqb (Number_toString artworkId) "" = false).
  { destruct (Number_toString artworkId) eqn:Hs; [|done]. discriminate. }
  repeat split; try done.
  - by destruct (create made).
  - unfold missing_metadata. rewrite Hmeta. simpl.
    unfold or_str at 1. simpl. rewrite Hne. simpl. rewrite Hparsed. simpl.
    rewrite (proj2 (Z.eqb_neq _ _) Hz). simpl. simpl in Hmail. by rewrite Hmail.
  - unfold session_artworkId. rewrite Hmeta. simpl.
    unfold or_str at 1. simpl. rewrite Hne. simpl. by rewrite Hparsed.
  - unfold session_buyerEmail. by rewrite Hmeta.
  - unfold session_wallet. rewrite Hmeta. simpl.
    unfold or_str.
    destruct (truthy_str (checkout_buyerWalletAddress fields)) eqn:Hw; [done|done].
Qed.

(** ** The upload to IPFS *)

(** With the token of Web3.Storage configured, an upload makes between one
    and three attempts, stops at the first attempt whose file a gateway
    confirms, and waits 1 s after the first failed attempt and 2 s after the
    second.  It always returns a result: after three failed attempts the
    result is the made-up name of the mock service, marked as not validated.
    Without the token the first attempt returns the made-up name, marked as
    validated.  In every case the URL has the ipfs scheme, and
    [ipfsToHttpUrl] turns it into the URL of the ipfs.io gateway for the
    cid. *)
Theorem upload_retries_with_backoff (storage : Storage) (size : Z) :
  let '(result, attempts, waited) := uploadWithRetry storage retryConfig size in
  upload_url result = String.append "ipfs://" (upload_cid result) /\
  ipfsToHttpUrl (upload_url result) =
    String.append "https://ipfs.io/ipfs/" (upload_cid result) /\
  (WEB3_STORAGE_TOKEN storage = false ->
   result = mock_result storage size true /\ attempts = 1%nat /\ waited = []) /\
  (WEB3_STORAGE_TOKEN storage = true ->
   (1 <= attempts <= 3)%nat /\
   waited = take (attempts - 1) [1000; 2000] /\
   (forall n, (1 <= n < attempts)%nat -> attempt_succeeds storage n = false) /\
   upload_validated result = attempt_succeeds storage attempts /\
   (upload_validated result = true ->
    performUpload storage attempts = inr (upload_cid result)) /\
   (upload_validated result = false ->
    attempts = 3%nat /\ result = mock_result storage size false)).
Proof.
  unfold uploadWithRetry, retryConfig. simpl.
  destruct (WEB3_STORAGE_TOKEN storage) eqn:Htoken; simpl.
  2: { repeat split; try done. }
  unfold attempt_succeeds.
  destruct (performUpload storage 1) as [e1|cid1] eqn:H1;
    [|destruct (validateUpload storage cid1) eqn:V1];
    (destruct (performUpload storage 2) as [e2|cid2] eqn:H2;
       [|destruct (validateUpload storage cid2) eqn:V2]);
    (destruct (performUpload storage 3) as [e3|cid3] eqn:H3;
       [|destruct (validateUpload storage cid3) eqn:V3]);
    simpl; rewrite ?H1, ?H2, ?H3, ?V1, ?V2, ?V3;
    (split; [done|]); (split; [done|]); (split; [done|]); intros _;
    (split; [lia|]); (split; [done|]);
    (split; [intros n Hn;
             assert (n = 1 \/ n = 2)%nat as [-> | ->] by lia;
             rewrite ?H1, ?H2, ?V1, ?V2; try done; lia|]);
    repeat split; try done.
Qed.

(** ** The properties at concrete inputs *)

(** C1 on a sold-out artwork: for artwork 3, with 1 of 1 editions taken, the
    increment reports no error, so the webhook answers received = true, the
    completed purchase stays, a token is created and a mail is sent, while
    the edition count is still 1 of 1. *)
Theorem C1_sold_out_purchase_kept :
  let run :=
    POST demo_constructEvent demo_sha256_hex (demo_env true)
      (demo_request "3" "good") demo_world in
  artworks demo_world !! 3 = Some (demo_artwork (Some 1) 1 1) /\
  fst run = json_result ok_result /\
  (exists p, purchases (snd run) !! 1 = Some p /\
             payment_status p = completed /\ artwork_id p = 3) /\
  artworks (snd run) !! 3 = Some (demo_artwork (Some 1) 1 1) /\
  (exists t, download_tokens (snd run) !! 1 = Some t /\ purchase_id t = 1) /\
  length (sent_mail (snd run)) = 1%nat.
Proof.
  vm_compute. repeat split; try reflexivity; eexists; repeat split; reflexivity.
Qed.

(** C3 as stated fails: for artwork 2, which has no artist, the token row is
    inserted for the new purchase 1, then the artwork lookup finds nothing,
    and the purchase is deleted, with its token. *)
Lemma C3_counterexample :
  let env := demo_env true in
  let session := demo_session (Some "2") (Some "bob@example.com") in
  let event := demo_event (Some "2") (Some "bob@example.com") in
  exists w1 w3 t,
    purchases_insert env (payment_intent session)
      (purchase_row demo_sha256_hex 2 "bob@example.com" (Some "0xB0B") session)
      demo_world = inr (1, w1) /\
    download_tokens_insert env 1 (generateSecureToken env)
      (clock env + 7 * 24 * 60 * 60 * 1000)
      (generateIdempotencyKey demo_sha256_hex "cs_1_token")
      (snd (rpc_increment_artwork_editions env 2 w1)) = (None, w3) /\
    download_tokens w3 !! 1 = Some t /\ purchase_id t = 1 /\
    is_Some (purchases w3 !! 1) /\
    select_artwork 2 w3 = None /\
    fst (processEventWithTransaction demo_sha256_hex env event demo_world) =
      failure "Artwork not found" /\
    purchases (snd (processEventWithTransaction demo_sha256_hex env event demo_world))
      = ∅ /\
    download_tokens
      (snd (processEventWithTransaction demo_sha256_hex env event demo_world)) = ∅.
Proof.
  eexists _, _, _. vm_compute.
  repeat split; try reflexivity. eexists. reflexivity.
Qed.

(** A forged signature on a world with a purchase and a token. *)
Lemma C4_witness :
  let request := demo_request "1" "forged" in
  demo_constructEvent (body request) (stripe_signature request) = None /\
  POST demo_constructEvent demo_sha256_hex (demo_env true) request demo_world_sold =
    (json_error 400 "Webhook signature verification failed", demo_world_sold).
Proof.
  split; [reflexivity|].
  apply (C4_invalid_signature_no_effect demo_constructEvent demo_sha256_hex).
  reflexivity.
Defined.

(** A verified event without an artwork id, delivered twice. *)
Lemma C10_witness :
  let request := demo_request "" "good" in
  let event := demo_event None (Some "bob@example.com") in
  let session := demo_session None (Some "bob@example.com") in
  let r := {| received := false; error := Some "Missing required metadata" |} in
  let first := POST demo_constructEvent demo_sha256_hex (demo_env true) request demo_world in
  demo_constructEvent (body request) (stripe_signature request) = Some event /\
  object event = checkout_session_completed session /\
  lacks (metadata session ≫= metadata_artworkId) /\
  ledger_lookup (eventKey request event) demo_world = None /\
  fst first = json_result r /\
  same_fulfilment demo_world (snd first) /\
  ledger_lookup (eventKey request event) (snd first) = Some r /\
  POST demo_constructEvent demo_sha256_hex (demo_env false) request (snd first) =
    (json_result r, snd first).
Proof.
  intros request event session r first.
  assert (He : demo_constructEvent (body request) (stripe_signature request) = Some event)
    by reflexivity.
  assert (Hobj : object event = checkout_session_completed session) by reflexivity.
  assert (Hlack : lacks (metadata session ≫= metadata_artworkId)) by (left; reflexivity).
  assert (Hl : ledger_lookup (eventKey request event) demo_world = None) by reflexivity.
  repeat (split; [assumption|]).
  exact (C10_missing_metadata_recorded demo_constructEvent demo_sha256_hex
           (demo_env true) (demo_env false) request demo_world event session
           He Hobj (or_introl Hlack) Hl).
Defined.

(** The event of session cs_1 delivered again, to a world that holds the
    purchase of cs_1 and an empty ledger. *)
Lemma C2_witness :
  let request := demo_request "1" "good" in
  let event := demo_event (Some "1") (Some "bob@example.com") in
  let session := demo_session (Some "1") (Some "bob@example.com") in
  let again := POST demo_constructEvent demo_sha256_hex (demo_env true) request demo_world_sold in
  demo_constructEvent (body request) (stripe_signature request) = Some event /\
  is_Some (existing_purchase session demo_world_sold) /\
  same_fulfilment demo_world_sold (snd again) /\
  fst again = json_result ok_result.
Proof.
  intros request event session again.
  assert (He : demo_constructEvent (body request) (stripe_signature request) = Some event)
    by reflexivity.
  assert (Hex : is_Some (existing_purchase session demo_world_sold))
    by (eexists; vm_compute; reflexivity).
  split; [assumption|]. split; [assumption|].
  destruct (C2_redelivery_no_new_effects demo_constructEvent demo_sha256_hex
              (demo_env true) request demo_world_sold event He)
    as (_ & Hsession & _ & _).
  destruct (Hsession session eq_refl Hex) as [Hsame Hanswer].
  split; [exact Hsame|]. apply Hanswer; reflexivity.
Defined.

(** The purchase of artwork 1 with a mail transport that rejects every mail:
    the row stays. *)
Lemma C3_witness :
  let env := demo_env false in
  let event := demo_event (Some "1") (Some "bob@example.com") in
  let session := demo_session (Some "1") (Some "bob@example.com") in
  let row :=
    purchase_row demo_sha256_hex (session_artworkId session)
      (session_buyerEmail session) (session_wallet session) session in
  let w1 := set_purchases (insert 1 (row "pay_1")) demo_world in
  let after := processEventWithTransaction demo_sha256_hex env event demo_world in
  object event = checkout_session_completed session /\
  missing_metadata session = false /\
  existing_purchase session demo_world = None /\
  purchases_insert env (payment_intent session) row demo_world = inr (1, w1) /\
  purchases (snd after) !! 1 = Some (row "pay_1") /\
  fst after = ok_result /\
  purchases (snd after) = <[1 := row "pay_1"]> (purchases demo_world).
Proof.
  intros env event session row w1 after.
  assert (Hobj : object event = checkout_session_completed session) by reflexivity.
  assert (Hm : missing_metadata session = false) by reflexivity.
  assert (Hex : existing_purchase session demo_world = None) by reflexivity.
  assert (Hins : purchases_insert env (payment_intent session) row demo_world = inr (1, w1))
    by (vm_compute; reflexivity).
  assert (Hkept : purchases (snd after) !! 1 = Some (row "pay_1"))
    by (vm_compute; reflexivity).
  repeat (split; [assumption|]).
  destruct (C3_compensation_until_artwork_lookup demo_sha256_hex env event session
              demo_world 1 w1 Hobj Hm Hex Hins) as (_ & _ & Hstay).
  destruct (Hstay _ Hkept) as (Hr & Hp & _). split; [exact Hr|exact Hp].
Defined.

(** Two downloads, a webhook delivery and a mint job on a world whose token
    has one download left. *)
Lemma C5_witness :
  let actions :=
    [Download 2000 "dl_00ff"; Download 2100 "dl_00ff";
     Webhook (demo_env true) (demo_request "1" "good"); Timer (demo_chain (Some 5))] in
  within_limit demo_world_sold /\
  within_limit (run demo_constructEvent demo_sha256_hex (fun gas => gas * 6 / 5)
                  actions demo_world_sold).
Proof.
  intros actions.
  assert (Hw : within_limit demo_world_sold).
  { unfold within_limit, demo_world_sold. simpl.
    apply map_Forall_insert_2; [simpl; lia|apply map_Forall_empty]. }
  split; [exact Hw|].
  exact (proj1 (C5_download_count_bounded_and_expiry demo_constructEvent
                  demo_sha256_hex (fun gas => gas * 6 / 5) demo_world_sold actions Hw)).
Defined.

(** The third download of the token of purchase 1, in time, then a fourth. *)
Lemma C6_witness :
  let third := GET 2000 "dl_00ff" demo_world_sold in
  download_tokens demo_world_sold !! 1 = Some demo_token /\
  fst third = redirect "https://ipfs.io/ipfs/dunes.png" /\
  download_tokens (snd third) !! 1 = Some (redeemed 2000 demo_token) /\
  fst (GET 2100 "dl_00ff" (snd third)) =
    json_error 429 "Maximum download limit reached" /\
  fst (GET 6000 "dl_00ff" (snd third)) = json_error 410 "Download token has expired".
Proof.
  intros third.
  assert (Hk : download_tokens demo_world_sold !! 1 = Some demo_token) by reflexivity.
  assert (Huniq : forall id' t', download_tokens demo_world_sold !! id' = Some t' ->
                                 token t' = "dl_00ff" -> id' = 1).
  { intros id' t' Hk' _. destruct (decide (id' = 1)) as [->|Hne]; [reflexivity|].
    unfold demo_world_sold in Hk'. simpl in Hk'.
    rewrite lookup_insert_ne, lookup_empty in Hk' by congruence. discriminate. }
  destruct (C6_download_precedence 2000 "dl_00ff" demo_world_sold) as [_ Hknown].
  destruct (Hknown 1 demo_token demo_purchase (demo_artwork (Some 1) 3 5)
              Hk eq_refl Huniq eq_refl eq_refl) as (_ & _ & Hredirect).
  assert (Hget : third = (redirect "https://ipfs.io/ipfs/dunes.png",
                          set_download_tokens (insert 1 (redeemed 2000 demo_token))
                            demo_world_sold))
    by (apply Hredirect; [vm_compute; discriminate|reflexivity]).
  rewrite Hget. repeat split; reflexivity.
Defined.


(** A mint under a gas price of 101 gwei, with a fee of 102 gwei and a
    priority fee of 4 gwei: the reduced envelope is 103 gwei, the gas price
    error is thrown and nothing is sent. *)
Lemma C8_witness :
  let chain := demo_chain_congested in
  let gasEstimate := estimateGasWithBuffer (fun gas => gas * 6 / 5) chain in
  0 <= maxPriorityFeePerGas gasEstimate /\
  gasPrice gasEstimate > MAX_GAS_PRICE /\
  gasPrice gasEstimate + maxPriorityFeePerGas gasEstimate ÷ 2 = gwei 103 /\
  mintNFTWithGasEstimation (fun gas => gas * 6 / 5) chain =
    (inl (GasPriceTooHigh (gwei 101)), []) /\
  mintToken (fun gas => gas * 6 / 5) chain = inl (GasPriceTooHigh (gwei 101)).
Proof.
  intros chain gasEstimate.
  assert (Hp : 0 <= maxPriorityFeePerGas gasEstimate) by (vm_compute; discriminate).
  assert (Hg : gasPrice gasEstimate > MAX_GAS_PRICE) by reflexivity.
  split; [exact Hp|]. split; [exact Hg|]. split; [reflexivity|].
  destruct (C8_reduced_fee_never_submits (fun gas => gas * 6 / 5) chain Hp Hg)
    as (_ & _ & Hm & Ht).
  exact (conj Hm Ht).
Defined.

(** A transport that rejects every mail: three attempts, the answer false
    and no wait. *)
Lemma C9_witness :
  let run := send_download_email (fun _ => false) demo_params demo_world in
  fst run = false /\ length (sent_mail (snd run)) = 3%nat /\ sleeps (snd run) = [].
Proof.
  intros run.
  destruct (C9_failed_sends_retried_without_wait (fun _ => false) demo_params
              demo_world) as (_ & _ & Hf & Hlen & _ & Hs).
  exact (conj Hf (conj Hlen Hs)).
Defined.

(** ** The further properties at concrete inputs *)

(** The paid session cs_1 for artwork 1, which has 3 of 5 editions taken. *)
Lemma fulfilment_of_a_paid_session_witness :
  let env := demo_env true in
  let event := demo_event (Some "1") (Some "bob@example.com") in
  let session := demo_session (Some "1") (Some "bob@example.com") in
  let after := processEventWithTransaction demo_sha256_hex env event demo_world in
  select_artwork 1 demo_world = Some (demo_artwork (Some 1) 3 5, demo_artist) /\
  fst after = ok_result /\
  artworks (snd after) = <[1 := demo_artwork (Some 1) 4 5]> (artworks demo_world) /\
  length (timers (snd after)) = 1%nat /\
  sleeps (snd after) = [].
Proof.
  intros env event session after.
  assert (Ha : select_artwork (session_artworkId session) demo_world =
               Some (demo_artwork (Some 1) 3 5, demo_artist))
    by (vm_compute; reflexivity).
  assert (Hp : forall k p, purchases demo_world !! k = Some p ->
                           stripe_payment_intent_id p <> "pay_1").
  { intros k p Hk. simpl in Hk. rewrite lookup_empty in Hk. discriminate. }
  assert (Ht : forall k t, download_tokens demo_world !! k = Some t ->
                           token t <> generateSecureToken env).
  { intros k t Hk. simpl in Hk. rewrite lookup_empty in Hk. discriminate. }
  destruct (fulfilment_of_a_paid_session demo_sha256_hex env event session demo_world
              "pay_1" (demo_artwork (Some 1) 3 5) demo_artist
              eq_refl eq_refl eq_refl eq_refl eq_refl eq_refl eq_refl Hp Ht Ha eq_refl)
    as (Hr & _ & Hart & _ & Htimers & _ & Hsleeps).
  split; [exact Ha|]. split; [exact Hr|]. split; [exact Hart|].
  split; [|exact Hsleeps].
  fold after in Htimers. rewrite Htimers. reflexivity.
Defined.

(** The failed payment of pay_1 reported to the world that holds its
    purchase. *)
Lemma failed_payment_keeps_downloads_witness :
  let request := demo_request "failed" "good" in
  let event := {| id := "evt_2"; object := payment_intent_payment_failed "pay_1" |} in
  let constructEvent := fun (body : string) (signature : option string) => Some event in
  let after := POST constructEvent demo_sha256_hex (demo_env true) request demo_world_sold in
  ledger_lookup (eventKey request event) demo_world_sold = None /\
  fst after = json_result ok_result /\
  payment_status <$> purchases (snd after) !! 1 = Some failed /\
  fst (GET 2000 "dl_00ff" (snd after)) = redirect "https://ipfs.io/ipfs/dunes.png".
Proof.
  intros request event constructEvent after.
  assert (Hl : ledger_lookup (eventKey request event) demo_world_sold = None)
    by reflexivity.
  destruct (failed_payment_keeps_downloads constructEvent demo_sha256_hex (demo_env true)
              request demo_world_sold event "pay_1" eq_refl eq_refl Hl)
    as (Hr & Hrows & _ & _ & _ & _ & _ & Hget).
  split; [exact Hl|]. split; [exact Hr|]. split.
  - fold after in Hrows. rewrite Hrows. reflexivity.
  - fold after in Hget. rewrite Hget. reflexivity.
Defined.

(** The event of session cs_1, the hourly sweep two days later, then the
    event again with a transport that rejects every mail. *)
Lemma redelivery_after_sweep_witness :
  let request := demo_request "1" "good" in
  let first := POST demo_constructEvent demo_sha256_hex (demo_env true) request demo_world in
  let swept := cleanup (1000 + 2 * CACHE_TTL) (snd first) in
  let again := POST demo_constructEvent demo_sha256_hex (demo_env false) request swept in
  processedEvents swept = ∅ /\
  fst again = json_result ok_result /\
  purchases (snd again) = purchases (snd first) /\
  sent_mail (snd again) = sent_mail (snd first).
Proof.
  intros request first swept again.
  destruct (redelivery_after_sweep demo_constructEvent demo_sha256_hex (demo_env true)
              (demo_env false) request demo_world
              (demo_event (Some "1") (Some "bob@example.com"))
              (1000 + 2 * CACHE_TTL) eq_refl eq_refl eq_refl eq_refl)
    as (Hr & (Hp1 & _ & _ & Hm1 & _) & (Hp2 & _ & _ & Hm2 & _)).
  split; [vm_compute; reflexivity|].
  split; [exact (eq_trans Hr eq_refl)|].
  split; [exact (eq_trans Hp1 Hp2)|exact (eq_trans Hm1 Hm2)].
Defined.

(** The same delivery when the row of webhook_events cannot be stored: after
    the sweep two days later nothing remembers the event. *)
Lemma ledger_forgets_without_durable_row_witness :
  let env :=
    {| clock := 1000; randomBytes_hex := "00ff";
       purchases_insert_error := None; increment_rpc_error := None;
       download_tokens_insert_error := None; webhook_events_insert_error := true;
       purchases_update_error := false; sendMail_resolves := fun _ => true |} in
  let request := demo_request "1" "good" in
  let event := demo_event (Some "1") (Some "bob@example.com") in
  let first := POST demo_constructEvent demo_sha256_hex env request demo_world in
  let now := 1000 + 2 * CACHE_TTL in
  now - clock env > CACHE_TTL /\
  ledger_lookup (eventKey request event) (snd first) = Some ok_result /\
  ledger_lookup (eventKey request event) (cleanup now (snd first)) = None.
Proof.
  intros env request event first now.
  assert (Hlate : now - clock env > CACHE_TTL) by reflexivity.
  destruct (ledger_forgets_without_durable_row demo_constructEvent demo_sha256_hex env
              request demo_world event now eq_refl eq_refl eq_refl eq_refl)
    as [_ Hforgot].
  split; [exact Hlate|]. split; [vm_compute; reflexivity|].
  exact (proj1 (Hforgot Hlate)).
Defined.

(** Five downloads with the token of purchase 1, which has one download
    left: one is granted. *)
Lemma downloads_never_exceed_the_remaining_witness :
  let times := [2000; 2100; 2200; 2300; 2400] in
  download_tokens demo_world_sold !! 1 = Some demo_token /\
  (fst (downloads times "dl_00ff" demo_world_sold) <= 1)%nat.
Proof.
  intros times.
  assert (Hk : download_tokens demo_world_sold !! 1 = Some demo_token) by reflexivity.
  assert (Huniq : forall id' t', download_tokens demo_world_sold !! id' = Some t' ->
                                 token t' = "dl_00ff" -> id' = 1).
  { intros id' t' Hk' _. destruct (decide (id' = 1)) as [->|Hne]; [reflexivity|].
    unfold demo_world_sold in Hk'. simpl in Hk'.
    rewrite lookup_insert_ne, lookup_empty in Hk' by congruence. discriminate. }
  split; [exact Hk|].
  pose proof (proj1 (downloads_never_exceed_the_remaining times "dl_00ff"
                       demo_world_sold 1 demo_token demo_purchase
                       (demo_artwork (Some 1) 3 5) Hk eq_refl Huniq eq_refl eq_refl
                       ltac:(vm_compute; discriminate))) as Hle.
  apply Nat2Z.inj_le. exact Hle.
Defined.

(** Two downloads in time with a token that has three left: both are
    granted. *)
Lemma downloads_in_time_are_granted_witness :
  let fresh :=
    {| purchase_id := 1; token := "dl_00ff"; expires_at := 5000; used_at := None;
       download_count := 0; max_downloads := 3; token_idempotency_key := "k" |} in
  let w := set_download_tokens (insert 1 fresh) demo_world_sold in
  Forall (fun now => now <= expires_at fresh) [2000; 2100] /\
  fst (downloads [2000; 2100] "dl_00ff" w) = 2%nat.
Proof.
  intros fresh w.
  assert (Htimes : Forall (fun now => now <= expires_at fresh) [2000; 2100])
    by (repeat constructor; vm_compute; discriminate).
  assert (Huniq : forall id' t', download_tokens w !! id' = Some t' ->
                                 token t' = "dl_00ff" -> id' = 1).
  { intros id' t' Hk' _. destruct (decide (id' = 1)) as [->|Hne]; [reflexivity|].
    unfold w, demo_world_sold in Hk'. simpl in Hk'.
    rewrite !lookup_insert_ne, lookup_empty in Hk' by congruence. discriminate. }
  split; [exact Htimes|].
  pose proof (downloads_in_time_are_granted [2000; 2100] "dl_00ff" w 1 fresh
                demo_purchase (demo_artwork (Some 1) 3 5) eq_refl eq_refl Huniq
                eq_refl eq_refl ltac:(vm_compute; discriminate) Htimes) as Hn.
  apply Nat2Z.inj. exact Hn.
Defined.

(** A mint when the provider gives no gas price: 10 gwei are assumed and
    the transaction is sent with the buffered gas limit. *)
Lemma mint_without_price_is_sent_witness :
  let chain := demo_chain None in
  let sent := {| gasLimit := 120000; tx_maxFeePerGas := gwei 10;
                 tx_maxPriorityFeePerGas := gwei 1 |} in
  or_num None 0 = 0 /\
  send_mintToken chain sent = inr "0xhash" /\
  snd (mintNFTWithGasEstimation (fun gas => gas * 6 / 5) chain) = [sent].
Proof.
  intros chain sent.
  assert (Hno : estimateGas chain = None \/ getFeeData chain = None \/
                exists feeData, getFeeData chain = Some feeData /\
                                or_num (fee_gasPrice feeData) 0 = 0).
  { right. right. eexists. split; reflexivity. }
  destruct (mint_without_price_is_sent (fun gas => gas * 6 / 5) chain Hno)
    as (_ & _ & _ & Hsent & _).
  split; [reflexivity|]. split; [reflexivity|].
  exact (Hsent "0xhash" eq_refl).
Defined.

(** A mint job for an artwork that has its token, on a chain that mines and
    confirms the transaction: the TypeError is stored and the purchase is not
    marked as minted. *)
Lemma confirmed_mint_is_recorded_as_an_error_witness :
  let chain := demo_chain (Some (gwei 5)) in
  let job :=
    {| purchaseId := 1; artworkId := 1;
       job_artwork := set_token_id 7 (demo_artwork (Some 1) 4 5);
       job_artist := demo_artist; buyerWalletAddress := "0xB0B"; sessionId := "cs_1" |} in
  let after := mint_job (fun gas => gas * 6 / 5) chain job demo_world_sold in
  waitForTransaction chain "0xhash" = inr (Some (demo_receipt "0xhash")) /\
  receipt_status (demo_receipt "0xhash") = Some 1 /\
  tx_wait chain "0xhash" = inr (demo_receipt "0xhash") /\
  nft_minting_errors after =
    [minting_error_row job (TypeError "receipt.gasUsed.mul is not a function")] /\
  nft_minted <$> purchases after !! 1 = Some false.
Proof.
  intros chain job after.
  destruct (confirmed_mint_is_recorded_as_an_error (fun gas => gas * 6 / 5) chain job
              demo_world_sold
              {| gasLimit := 120000; tx_maxFeePerGas := gwei 5;
                 tx_maxPriorityFeePerGas := gwei 1 |}
              "0xhash" (demo_receipt "0xhash") (demo_receipt "0xhash")
              eq_refl eq_refl eq_refl eq_refl eq_refl eq_refl eq_refl)
    as (_ & _ & Herr & Hp & _).
  split; [reflexivity|]. split; [reflexivity|]. split; [reflexivity|].
  split; [exact Herr|].
  exact (eq_trans (f_equal (fun m => nft_minted <$> m !! 1) Hp) eq_refl).
Defined.

(** A mint whose transaction reverts. *)
Lemma failed_transaction_is_thrown_witness :
  let reverted :=
    {| receipt_hash := "0xhash"; receipt_status := Some 0; receipt_blockNumber := 42;
       receipt_gasUsed := 30000; receipt_gasPrice := Some (gwei 5) |} in
  let chain :=
    {| getContractService_error := None; createToken_result := inr 7;
       estimateGas := Some 100000;
       getFeeData := Some {| fee_gasPrice := Some (gwei 5); fee_maxFeePerGas := None;
                             fee_maxPriorityFeePerGas := None |};
       send_mintToken := fun _ => inr "0xhash";
       waitForTransaction := fun _ => inr (Some reverted);
       tx_wait := fun _ => inl "transaction execution reverted" |} in
  let sent := {| gasLimit := 120000; tx_maxFeePerGas := gwei 5;
                 tx_maxPriorityFeePerGas := gwei 1 |} in
  checkGasPrice (estimateGasWithBuffer (fun gas => gas * 6 / 5) chain) = inr sent /\
  send_mintToken chain sent = inr "0xhash" /\
  mintNFTWithGasEstimation (fun gas => gas * 6 / 5) chain =
    (inl (TransactionFailed (Some "Transaction reverted")), [sent]).
Proof.
  intros reverted chain sent.
  destruct (failed_transaction_is_thrown (fun gas => gas * 6 / 5) chain sent "0xhash"
              eq_refl eq_refl) as (Hrev & _).
  split; [reflexivity|]. split; [reflexivity|].
  exact (Hrev reverted eq_refl eq_refl).
Defined.

(** The owner creates a token of two editions and mints both to one buyer;
    a third mint and a creation by a stranger revert. *)
Lemma contract_state_stays_consistent_witness :
  let st0 := {| ImNotArtNFT.owner := 9; ImNotArtNFT._tokenIdCounter := 1;
                ImNotArtNFT.tokenInfo := ∅; ImNotArtNFT.balanceOf := ∅ |} in
  let calls :=
    [ImNotArtNFT.call_createToken 9 77 2 "ipfs://dunes";
     ImNotArtNFT.call_mintToken true 9 1 55 2;
     ImNotArtNFT.call_mintToken true 9 1 55 1;
     ImNotArtNFT.call_createToken 8 77 2 "ipfs://other"] in
  let st := ImNotArtNFT.execs calls st0 in
  ImNotArtNFT.constructor 9 = inr st0 /\
  Forall ImNotArtNFT.well_typed calls /\
  ImNotArtNFT.consistent st /\
  ImNotArtNFT._tokenIdCounter st = 2 /\
  ImNotArtNFT.currentSupply (ImNotArtNFT.getTokenInfo 1 st) = 2.
Proof.
  intros st0 calls st.
  assert (Hctor : ImNotArtNFT.constructor 9 = inr st0) by reflexivity.
  assert (Hcalls : Forall ImNotArtNFT.well_typed calls).
  { repeat constructor; vm_compute; discriminate. }
  split; [exact Hctor|]. split; [exact Hcalls|].
  split; [|split; reflexivity].
  exact (proj1 (contract_state_stays_consistent 9 st0 calls Hctor Hcalls)).
Defined.

(** A token created for the zero address, and a mint of it by the owner
    after another token was created. *)
Lemma token_of_the_zero_address_is_never_minted_witness :
  let st := {| ImNotArtNFT.owner := 9; ImNotArtNFT._tokenIdCounter := 1;
               ImNotArtNFT.tokenInfo := ∅; ImNotArtNFT.balanceOf := ∅ |} in
  let created := ImNotArtNFT.createToken 9 0 5 "ipfs://dunes" st in
  let calls := [ImNotArtNFT.call_createToken 9 77 2 "ipfs://other"] in
  exists st',
    created = inr (1, st') /\
    ImNotArtNFT.mintToken true 9 1 55 1 (ImNotArtNFT.execs calls st') =
      inl ImNotArtNFT.Token_does_not_exist.
Proof.
  intros st created calls. eexists. split; [reflexivity|].
  exact (proj1 (proj2 (token_of_the_zero_address_is_never_minted 9 5 "ipfs://dunes"
                         st _ 1 calls eq_refl)) true 55 1).
Defined.

(** The royalty of a sale at 12345 after one token was created. *)
Lemma royalty_is_a_tenth_of_the_price_witness :
  let st0 := {| ImNotArtNFT.owner := 9; ImNotArtNFT._tokenIdCounter := 1;
                ImNotArtNFT.tokenInfo := ∅; ImNotArtNFT.balanceOf := ∅ |} in
  let calls := [ImNotArtNFT.call_createToken 9 77 2 "ipfs://dunes"] in
  ImNotArtNFT.constructor 9 = inr st0 /\
  Forall ImNotArtNFT.well_typed calls /\
  0 <= 12345 <= ImNotArtNFT.uint256_max /\
  ImNotArtNFT.getRoyaltyInfo 1 12345 (ImNotArtNFT.execs calls st0) = inr (77, 1234).
Proof.
  intros st0 calls.
  assert (Hctor : ImNotArtNFT.constructor 9 = inr st0) by reflexivity.
  assert (Hcalls : Forall ImNotArtNFT.well_typed calls).
  { repeat constructor; vm_compute; discriminate. }
  assert (Hprice : 0 <= 12345 <= ImNotArtNFT.uint256_max)
    by (split; vm_compute; discriminate).
  split; [exact Hctor|]. split; [exact Hcalls|]. split; [exact Hprice|].
  exact (eq_trans (royalty_is_a_tenth_of_the_price 9 st0 calls 1 12345
                     Hctor Hcalls Hprice) eq_refl).
Defined.

(** A checkout of artwork 1 without a wallet, and the session Stripe makes
    of it. *)
Lemma checkout_session_is_accepted_by_the_webhook_witness :
  let create := fun _ : SessionParams => Some "cs_9" in
  let fields :=
    {| checkout_artworkId := Some 1; checkout_buyerEmail := Some "bob@example.com";
       checkout_buyerWalletAddress := None |} in
  let params :=
    {| product_name := "Dunes"; product_images := ["https://ipfs.io/ipfs/dunes.png"];
       customer_email := "bob@example.com";
       params_metadata :=
         {| metadata_artworkId := Some "1";
            metadata_buyerEmail := Some "bob@example.com";
            metadata_buyerWalletAddress := Some "" |} |} in
  let session :=
    {| session_id := "cs_9"; metadata := Some (params_metadata params);
       payment_intent := Some "pay_9"; amount_total := Some 1500 |} in
  checkout_POST create (Some fields) demo_world = (checkout_session "cs_9", [params]) /\
  missing_metadata session = false /\
  session_artworkId session = 1 /\
  truthy_str (session_wallet session) = false.
Proof.
  intros create fields params session.
  assert (Hrun : checkout_POST create (Some fields) demo_world =
                 (checkout_session "cs_9", [params])) by (vm_compute; reflexivity).
  split; [exact Hrun|].
  destruct (checkout_session_is_accepted_by_the_webhook create fields demo_world
              params session (f_equal snd Hrun) eq_refl)
    as (artworkId & artwork & Hid & _ & _ & _ & _ & Hm & Ha & _ & Hw).
  injection Hid as <-.
  split; [exact Hm|]. split; [exact Ha|exact Hw].
Defined.
